(** * wowprogress-scrapper: resumable tier crawl, language filter, combine tool

    A shallow embedding of [wowprogress-scrapper/main.py] (with the
    [has_heroic_progress] oracle of [main_cloudscraper.py]) and of
    [wowprogress-scrapper/combine_guilds.py], followed by the properties of
    the crawl, the filter and the merge that the specification states.

    Conventions of the embedding.
    - Python [str] is [string], holding the UTF-8 bytes of the text; the
      order of two [str], by code point, is the order of their bytes.
      [strip] removes the white space of Unicode, the code points
      [white_space].  The [lower] and [upper] of the scraper, whose results
      are compared with ['finnish'] and ['EU'] only, act on the ASCII
      letters; the [str.lower] the combine tool sorts by is a parameter of
      the tool.
    - Python [int] is [Z]; [len] is [length] (a [nat]).
    - A JSON state file is the map or list [json.load] returns; a file that
      does not exist is the empty map, as in [load_state].
    - A [dict] whose iteration order is observed ([unique_guilds]) is an
      association list kept in insertion order; the two state files keyed by
      tier are [gmap]s.
    - bs4 and the transport are external: a parsed page is the record of the
      answers bs4 gives to the queries the code makes, and [fetch_page] is a
      function of the URL and the referer, [None] once its retries are
      exhausted. *)

From Stdlib Require Import ZArith Ascii String List Lia Sorted Permutation.
From stdpp Require Import base option list gmap strings pretty.

Local Open Scope Z_scope.

(** ** Python string operations *)

Module Py.

(** [str.isspace] on a character of one byte: TAB..CR, FS..US and the
    space.  The white-space characters of two and of three bytes are those
    of [isspace2] and [isspace3] below. *)
Definition isspace (c : ascii) : bool :=
  let n := N_of_ascii c in
  ((9 <=? n) && (n <=? 13) || (28 <=? n) && (n <=? 32))%N.

Definition lower_char (c : ascii) : ascii :=
  let n := N_of_ascii c in
  if ((65 <=? n) && (n <=? 90))%N then ascii_of_N (n + 32) else c.

Definition upper_char (c : ascii) : ascii :=
  let n := N_of_ascii c in
  if ((97 <=? n) && (n <=? 122))%N then ascii_of_N (n - 32) else c.

Fixpoint map_chars (f : ascii → ascii) (s : string) : string :=
  match s with
  | EmptyString => EmptyString
  | String c s' => String (f c) (map_chars f s')
  end.

(** [s.lower()] and [s.upper()] where the scraper calls them: on a text it
    compares with ['finnish'] and on one it compares with ['EU'].  On an
    ASCII text they are Python's.  A text with another character is
    neither ['finnish'] nor ['EU'] after Python's case mapping (no such
    character maps to letters of these words alone), and is neither here,
    where the bytes of such a character stay as they are. *)
Definition lower : string → string := map_chars lower_char.
Definition upper : string → string := map_chars upper_char.

(** The white space [strip] removes is Unicode's.  A [str] is held as its
    UTF-8 bytes, so beside the one-byte characters of [isspace] there are
    NEL (U+0085) and the no-break space (U+00A0) on two bytes, and
    U+1680, U+2000..U+200A, U+2028, U+2029, U+202F, U+205F and U+3000 on
    three. *)
Definition isspace2 (c c1 : ascii) : bool :=
  let n := N_of_ascii c in
  let n1 := N_of_ascii c1 in
  ((n =? 194) && ((n1 =? 133) || (n1 =? 160)))%N.

Definition isspace3 (c c1 c2 : ascii) : bool :=
  let n := N_of_ascii c in
  let n1 := N_of_ascii c1 in
  let n2 := N_of_ascii c2 in
  ((n =? 225) && (n1 =? 154) && (n2 =? 128)
   || (n =? 226) && (n1 =? 128) &&
      ((128 <=? n2) && (n2 <=? 138) || (n2 =? 168) || (n2 =? 169) ||
       (n2 =? 175))
   || (n =? 226) && (n1 =? 129) && (n2 =? 159)
   || (n =? 227) && (n1 =? 128) && (n2 =? 128))%N.

(** What follows the white-space character [s] starts with, if it starts
    with one. *)
Definition space_head (s : string) : option string :=
  match s with
  | EmptyString => None
  | String c s1 =>
      if isspace c then Some s1
      else match s1 with
           | EmptyString => None
           | String c1 s2 =>
               if isspace2 c c1 then Some s2
               else match s2 with
                    | EmptyString => None
                    | String c2 s3 =>
                        if isspace3 c c1 c2 then Some s3 else None
                    end
           end
  end.

Fixpoint lstrip (s : string) : string :=
  match s with
  | EmptyString => EmptyString
  | String c s1 =>
      if isspace c then lstrip s1
      else match s1 with
           | EmptyString => s
           | String c1 s2 =>
               if isspace2 c c1 then lstrip s2
               else match s2 with
                    | EmptyString => s
                    | String c2 s3 =>
                        if isspace3 c c1 c2 then lstrip s3 else s
                    end
           end
  end.

(** [s] holds white-space characters only. *)
Fixpoint blank (s : string) : bool :=
  match s with
  | EmptyString => true
  | String c s1 =>
      if isspace c then blank s1
      else match s1 with
           | EmptyString => false
           | String c1 s2 =>
               if isspace2 c c1 then blank s2
               else match s2 with
                    | EmptyString => false
                    | String c2 s3 =>
                        if isspace3 c c1 c2 then blank s3 else false
                    end
           end
  end.

(** The bytes of [s] up to its trailing white space. *)
Fixpoint rstrip (s : string) : string :=
  match s with
  | EmptyString => EmptyString
  | String c s' => if blank s then EmptyString else String c (rstrip s')
  end.

(** [s.strip()]. *)
Definition strip (s : string) : string := rstrip (lstrip s).

(** [sub in s] for strings. *)
Fixpoint contains (sub s : string) : bool :=
  String.prefix sub s ||
  match s with
  | EmptyString => false
  | String _ s' => contains sub s'
  end.

(** [s.split(sep, 1)] for a one-character separator: the text before the
    first separator and the text after it, or [s] alone. *)
Fixpoint split1 (sep : ascii) (s : string) : list string :=
  match s with
  | EmptyString => [EmptyString]
  | String c s' =>
      if Ascii.eqb c sep then [EmptyString; s']
      else match split1 sep s' with
           | [] => []
           | before :: rest => String c before :: rest
           end
  end.

(** Truth value of an [Optional[str]]: [None] and [''] are false. *)
Definition truthy (o : option string) : bool :=
  match o with
  | Some (String _ _) => true
  | _ => false
  end.

End Py.

(** ** Parsed pages *)

(** The dictionaries the Row Extractor builds. *)
Record Guild := mkGuild {
  name : string;
  realm : string;
  region : string;
  url : string
}.

(** The dictionaries of the final output file: no ['url']. *)
Record FinalGuild := mkFinal {
  final_name : string;
  final_realm : string;
  final_region : string
}.

(** What [row.find('a', class_=lambda x: x and 'guild' in x)] answers: the
    text of the anchor's first [<nobr>], if any, and its [href], if any. *)
Record GuildLink := mkLink {
  find_nobr : option string;
  get_href : option string
}.

(** A [<tr>]: either bs4 raises while the row is inspected, or the two
    [find] calls answer ([realm_link] is the text of the anchor of class
    exactly ['realm']). *)
Inductive Row :=
| RowRaises
| RowTag (guild_link : option GuildLink) (realm_link : option string).

(** A [<span class="ratingProgress">]: the text of its first [<b>], if any,
    and its own text. *)
Record ProgressSpan := mkSpan {
  find_b : option string;
  span_text : string
}.

Record Soup := mkSoup {
  find_all_tr : list Row;
  find_all_ratingProgress : list ProgressSpan;
  find_div_language : option string
}.

(** ** Termination Oracle *)

(** main.py, [has_mythic_progress]. *)
Definition has_mythic_progress (soup : Soup) : bool :=
  let progress_spans := find_all_ratingProgress soup in
  match last progress_spans with
  | None => false
  | Some last_span =>
      match find_b last_span with
      | Some progress_text => Py.contains "(M)" progress_text
      | None => false
      end
  end.

(** main_cloudscraper.py, [has_heroic_progress]. *)
Definition has_heroic_progress (soup : Soup) : bool :=
  let progress_spans := find_all_ratingProgress soup in
  match last progress_spans with
  | None => false
  | Some last_span => Py.contains "(H)" (span_text last_span)
  end.

(** ** Row Extractor *)

(** One iteration of the [for row in rows] loop: [None] stands for
    [continue] (also from the [except] clause), [Some g] for the append. *)
Definition extract_row (row : Row) : option Guild :=
  match row with
  | RowRaises => None
  | RowTag guild_link realm_link =>
      guild_link ← guild_link;
      guild_nobr ← find_nobr guild_link;
      let guild_name := Py.strip guild_nobr in
      realm_link ← realm_link;
      let realm_text := Py.strip realm_link in
      if Py.contains "-" realm_text then
        let parts := Py.split1 "-" realm_text in
        region ← Py.strip <$> parts !! 0%nat;
        realm ← Py.strip <$> parts !! 1%nat;
        if String.eqb (Py.upper region) "EU" then
          let guild_url := default "" (get_href guild_link) in
          Some (mkGuild guild_name realm region guild_url)
        else None
      else None
  end.

(** main.py, [extract_guilds_from_page]: the loop appends to [guilds]. *)
Definition extract_guilds_loop (guilds : list Guild) (rows : list Row) : list Guild :=
  foldl (λ guilds row,
           match extract_row row with
           | Some g => guilds ++ [g]
           | None => guilds
           end) guilds rows.

Definition extract_guilds_from_page (soup : Soup) : list Guild :=
  extract_guilds_loop [] (find_all_tr soup).

(** ** Insertion-ordered dictionaries

    A Python [dict] iterates in insertion order, and assigning to a key that
    is present replaces the value where the key already stands. *)

Module ODict.

Definition t (V : Type) : Type := list (string * V).

(** [k in d] *)
Fixpoint mem {V} (k : string) (d : t V) : bool :=
  match d with
  | [] => false
  | (k', _) :: d' => String.eqb k k' || mem k d'
  end.

(** [d.get(k)] *)
Fixpoint get {V} (k : string) (d : t V) : option V :=
  match d with
  | [] => None
  | (k', v) :: d' => if String.eqb k k' then Some v else get k d'
  end.

(** [d[k] = v] *)
Fixpoint set {V} (k : string) (v : V) (d : t V) : t V :=
  match d with
  | [] => [(k, v)]
  | (k', v') :: d' =>
      if String.eqb k k' then (k', v) :: d' else (k', v') :: set k v d'
  end.

(** [list(d.values())] *)
Definition values {V} (d : t V) : list V := snd <$> d.

Definition keys {V} (d : t V) : list string := fst <$> d.

End ODict.

(** ** Persisted state *)

(** An entry of the tier-progress file, written at main.py:259-262. *)
Record ProgressEntry := mkProgress {
  last_page : Z;
  guilds_count : nat
}.

(** An entry of the tier-records file, written at main.py:352-355. *)
Record TierData := mkTierData {
  completed : bool;
  guilds : list Guild
}.

Record Files := mkFiles {
  tier_progress_file : gmap string ProgressEntry;
  guilds_with_mythic_file : gmap string TierData;
  final_guilds_file : option (list FinalGuild)
}.

Definition BASE_URL : string := "https://www.wowprogress.com".
Definition START_TIER : Z := 22.
Definition END_TIER : Z := 35.

(** [f"{BASE_URL}/pve/rating/next/{page}/rating.tier{tier}"] *)
Definition rating_url (tier page : Z) : string :=
  BASE_URL +:+ "/pve/rating/next/" +:+ pretty page +:+ "/rating.tier" +:+ pretty tier.

(** [range(start, stop, -1)] *)
Definition range_down (start stop : Z) : list Z :=
  (λ i : nat, start - Z.of_nat i) <$> seq 0 (Z.to_nat (start - stop)).

(** [f"{guild['name']}|{guild['realm']}"] *)
Definition unique_key (guild : Guild) : string :=
  name guild +:+ "|" +:+ realm guild.

(** ** Tier Crawler, Language Filter and Orchestrator

    The fetcher and the Termination Oracle in use are parameters:
    main.py runs with [has_mythic_progress], main_cloudscraper.py with
    [has_heroic_progress]. *)

Section Scraper.

Variable fetch_page : string → option string → option Soup.
Variable has_progress : Soup → bool.

(** The variables of the [while True] loop of [scrape_tier_guilds],
    with the tier-progress file it reloads and rewrites. *)
Record Crawl := mkCrawl {
  page : Z;
  all_guilds : list Guild;
  prev_url : option string;
  progress : gmap string ProgressEntry
}.

(** The referer of the request for [page]. *)
Definition referer_for (tier page : Z) (prev_url : option string) : string :=
  match prev_url with
  | Some u => u
  | None => rating_url tier (if decide (page > -1) then page - 1 else -1)
  end.

(** One iteration of the loop: [inr] is a [break], with the list returned
    and the file as it then is; [inl] enters the next iteration. *)
Definition crawl_step (tier : Z) (c : Crawl)
  : Crawl + (list Guild * gmap string ProgressEntry) :=
  let url := rating_url tier (page c) in
  let referer := referer_for tier (page c) (prev_url c) in
  match fetch_page url (Some referer) with
  | None => inr (all_guilds c, progress c)
  | Some soup =>
      let guilds := extract_guilds_from_page soup in
      let all_guilds := all_guilds c ++ guilds in
      if negb (has_progress soup) then inr (all_guilds, progress c)
      else
        let tier_progress :=
          <[pretty tier := mkProgress (page c) (length all_guilds)]> (progress c) in
        inl (mkCrawl (page c + 1) all_guilds (Some url) tier_progress)
  end.

(** The loop, bounded by [fuel] iterations; [None] when they are used up. *)
Fixpoint crawl_loop (fuel : nat) (tier : Z) (c : Crawl)
  : option (list Guild * gmap string ProgressEntry) :=
  match fuel with
  | O => None
  | S fuel' =>
      match crawl_step tier c with
      | inr result => Some result
      | inl c' => crawl_loop fuel' tier c'
      end
  end.

(** main.py, [scrape_tier_guilds]. *)
Definition scrape_tier_guilds (fuel : nat) (tier start_page : Z)
    (progress_file : gmap string ProgressEntry)
  : option (list Guild * gmap string ProgressEntry) :=
  crawl_loop fuel tier (mkCrawl start_page [] None progress_file).

(** main.py, [get_guild_language]. *)
Definition get_guild_language (guild_url : string) : option string :=
  let full_url := BASE_URL +:+ guild_url in
  match fetch_page full_url None with
  | None => None
  | Some soup =>
      match find_div_language soup with
      | Some lang_text =>
          if Py.contains ":" lang_text
          then Py.strip <$> Py.split1 ":" lang_text !! 1%nat
          else None
      | None => None
      end
  end.

(** [language and language.lower() == 'finnish'] *)
Definition is_finnish (language : option string) : bool :=
  Py.truthy language &&
  match language with
  | Some l => String.eqb (Py.lower l) "finnish"
  | None => false
  end.

Definition drop_url (guild : Guild) : FinalGuild :=
  mkFinal (name guild) (realm guild) (region guild).

(** main.py, [filter_finnish_guilds]: the list built so far and the final
    output file, rewritten at every match. *)
Definition filter_step (acc : list FinalGuild * option (list FinalGuild))
    (guild : Guild) : list FinalGuild * option (list FinalGuild) :=
  let '(finnish_guilds, final_file) := acc in
  let language := get_guild_language (url guild) in
  if is_finnish language then
    let finnish_guilds := finnish_guilds ++ [drop_url guild] in
    (finnish_guilds, Some finnish_guilds)
  else (finnish_guilds, final_file).

Definition filter_finnish_guilds (guilds : list Guild)
    (final_file : option (list FinalGuild))
  : list FinalGuild * option (list FinalGuild) :=
  foldl filter_step ([], final_file) guilds.

(** The variables of [main] during the loop over the tiers. *)
Record Main := mkMain {
  disk : Files;
  all_guilds_data : gmap string TierData;
  unique_guilds : ODict.t Guild
}.

(** [for guild in guilds: unique_guilds[key] = guild] *)
Definition add_unique (unique_guilds : ODict.t Guild) (guilds : list Guild)
  : ODict.t Guild :=
  foldl (λ u guild, ODict.set (unique_key guild) guild u) unique_guilds guilds.

(** The start page [main] computes from the progress it loaded. *)
Definition start_page_of (tier_progress : gmap string ProgressEntry) (tier : Z) : Z :=
  match tier_progress !! pretty tier with
  | Some entry => last_page entry + 1
  | None => -1
  end.

(** [tier_key in all_guilds_data and all_guilds_data[tier_key].get('completed', False)] *)
Definition already_completed (all_guilds_data : gmap string TierData) (tier : Z) : bool :=
  match all_guilds_data !! pretty tier with
  | Some data => completed data
  | None => false
  end.

(** The body of [for tier in range(END_TIER, START_TIER - 1, -1)];
    [tier_progress] is the copy of the progress file loaded at start-up. *)
Definition tier_step (fuel : nat) (tier_progress : gmap string ProgressEntry)
    (m : Main) (tier : Z) : option Main :=
  let tier_key := pretty tier in
  if already_completed (all_guilds_data m) tier then
    let stored := default [] (guilds <$> all_guilds_data m !! tier_key) in
    Some (mkMain (disk m) (all_guilds_data m)
                 (add_unique (unique_guilds m) stored))
  else
    let start_page := start_page_of tier_progress tier in
    '(guilds, progress_file) ←
       scrape_tier_guilds fuel tier start_page (tier_progress_file (disk m));
    let all_guilds_data :=
      <[tier_key := mkTierData true guilds]> (all_guilds_data m) in
    Some (mkMain
            (mkFiles progress_file all_guilds_data (final_guilds_file (disk m)))
            all_guilds_data
            (add_unique (unique_guilds m) guilds)).

Definition tiers_loop (fuel : nat) (tier_progress : gmap string ProgressEntry)
    (m : Main) (tiers : list Z) : option Main :=
  foldl (λ m tier, m ← m; tier_step fuel tier_progress m tier) (Some m) tiers.

(** main.py, [main]: the files it leaves and the list it reports; every
    tier crawl gets [fuel] iterations. *)
Definition main (fuel : nat) (files : Files) : option (Files * list FinalGuild) :=
  let tier_progress := tier_progress_file files in
  let all_guilds_data := guilds_with_mythic_file files in
  m ← tiers_loop fuel tier_progress (mkMain files all_guilds_data [])
        (range_down END_TIER (START_TIER - 1));
  let all_unique_guilds := ODict.values (unique_guilds m) in
  let '(finnish_guilds, final_file) :=
    filter_finnish_guilds all_unique_guilds (final_guilds_file (disk m)) in
  Some (mkFiles (tier_progress_file (disk m)) (guilds_with_mythic_file (disk m))
                (Some finnish_guilds),
        finnish_guilds).

End Scraper.

(** ** The offline combine tool (combine_guilds.py) *)

Module Combine.

(** [f"{guild['name']}-{guild['realm']}"] *)
Definition key (guild : FinalGuild) : string :=
  final_name guild +:+ "-" +:+ final_realm guild.

(** [if key not in unique_guilds: unique_guilds[key] = guild] *)
Definition add_first (unique_guilds : ODict.t FinalGuild) (guild : FinalGuild)
  : ODict.t FinalGuild :=
  if ODict.mem (key guild) unique_guilds then unique_guilds
  else ODict.set (key guild) guild unique_guilds.

Definition unique_of (guilds : list FinalGuild) : ODict.t FinalGuild :=
  foldl add_first [] guilds.

(** The four counts the tool prints. *)
Record Report := mkReport {
  total_first : nat;
  total_second : nat;
  total_unique : nat;
  duplicates_removed : Z
}.

Section Sort.

(** Python's [str.lower], which maps every cased character of Unicode by
    the tables of the interpreter; the sort takes it as it is. *)
Variable lower : string → string.

(** [lambda x: x['name'].lower()] *)
Definition sort_key (guild : FinalGuild) : string := lower (final_name guild).

(** [list.sort(key=...)] is stable, and a list has one stable sorted
    arrangement; it is computed here by insertion from the right, each
    element going in front of the elements whose key is not smaller.
    Python orders two [str] by their code points, which is the order of
    their UTF-8 bytes. *)
Fixpoint insert_sorted (x : FinalGuild) (l : list FinalGuild) : list FinalGuild :=
  match l with
  | [] => [x]
  | y :: l' =>
      if String.leb (sort_key x) (sort_key y) then x :: y :: l'
      else y :: insert_sorted x l'
  end.

Definition sort_by_name (l : list FinalGuild) : list FinalGuild :=
  foldr insert_sorted [] l.

(** [combine_guild_files], from the contents of the two input files to the
    content of the combined file and the report. *)
Definition combine_guild_files (guilds guilds_mythic : list FinalGuild)
  : list FinalGuild * Report :=
  let unique_guilds := unique_of (guilds ++ guilds_mythic) in
  let combined_guilds := sort_by_name (ODict.values unique_guilds) in
  (combined_guilds,
   mkReport (length guilds) (length guilds_mythic) (length combined_guilds)
     (Z.of_nat (length guilds) + Z.of_nat (length guilds_mythic)
      - Z.of_nat (length combined_guilds))).

End Sort.

End Combine.

(** ** Vocabulary of the specification *)

(** The UTF-8 bytes of a code point below U+10000. *)
Definition utf8 (point : N) : string :=
  (if point <? 128 then String (ascii_of_N point) EmptyString
   else if point <? 2048 then
     String (ascii_of_N (192 + point / 64))
       (String (ascii_of_N (128 + point mod 64)) EmptyString)
   else
     String (ascii_of_N (224 + point / 4096))
       (String (ascii_of_N (128 + (point / 64) mod 64))
          (String (ascii_of_N (128 + point mod 64)) EmptyString)))%N.

(** The code points Python's [str.isspace] accepts, which are the ones
    [str.strip] removes. *)
Definition white_space : list N :=
  [9; 10; 11; 12; 13; 28; 29; 30; 31; 32; 133; 160; 5760;
   8192; 8193; 8194; 8195; 8196; 8197; 8198; 8199; 8200; 8201; 8202;
   8232; 8233; 8239; 8287; 12288]%N.

(** [w] is one white-space character. *)
Definition space_char (w : string) : Prop :=
  ∃ point, In point white_space ∧ w = utf8 point.

Definition space_charb (w : string) : bool :=
  existsb (λ point, String.eqb w (utf8 point)) white_space.

(** [s] is a sequence of white-space characters. *)
Inductive all_space : string → Prop :=
| all_space_nil : all_space EmptyString
| all_space_app w s : space_char w → all_space s → all_space (w +:+ s).

(** [r] neither starts nor ends with a white-space character. *)
Definition no_outer_space (r : string) : Prop :=
  (∀ w r', space_char w → r ≠ w +:+ r') ∧
  (∀ r' w, space_char w → r ≠ r' +:+ w).

(** [r] is [s] without its leading and trailing white space. *)
Definition trimmed (s r : string) : Prop :=
  ∃ lead trail, s = lead +:+ r +:+ trail ∧
    all_space lead ∧ all_space trail ∧ no_outer_space r.

(** A byte that can start an encoded white-space character. *)
Definition starts_space (c : ascii) : bool :=
  let n := N_of_ascii c in
  (Py.isspace c || (n =? 194) || (n =? 225) || (n =? 226) || (n =? 227))%N.

(** Case-insensitive equality of two strings. *)
Definition same_ignoring_case (a b : string) : bool :=
  String.eqb (Py.lower a) (Py.lower b).

(** The text in front of the first [sep] of [s] (all of [s] without one). *)
Fixpoint before_first (sep : ascii) (s : string) : string :=
  match s with
  | EmptyString => EmptyString
  | String c s' => if Ascii.eqb c sep then EmptyString else String c (before_first sep s')
  end.

(** The text behind the first [sep] of [s] (empty without one). *)
Fixpoint after_first (sep : ascii) (s : string) : string :=
  match s with
  | EmptyString => EmptyString
  | String c s' => if Ascii.eqb c sep then s' else after_first sep s'
  end.

(** A row the Row Extractor is to keep: a guild anchor with a name node, a
    realm anchor whose text has a hyphen, and a region part equal to "EU"
    whatever the case. *)
Definition valid_eu_row (row : Row) : bool :=
  match row with
  | RowTag (Some guild_link) (Some realm_link) =>
      bool_decide (is_Some (find_nobr guild_link)) &&
      Py.contains "-" (Py.strip realm_link) &&
      same_ignoring_case (Py.strip (before_first "-" (Py.strip realm_link))) "EU"
  | _ => false
  end.

(** The record of a valid row. *)
Definition row_record (row : Row) : Guild :=
  match row with
  | RowTag (Some guild_link) (Some realm_link) =>
      mkGuild (Py.strip (default "" (find_nobr guild_link)))
              (Py.strip (after_first "-" (Py.strip realm_link)))
              (Py.strip (before_first "-" (Py.strip realm_link)))
              (default "" (get_href guild_link))
  | _ => mkGuild "" "" "" ""
  end.

(** The last progress element carries the marker of the difficulty: in its
    bold child for the mythic oracle, in its text for the heroic one. *)
Definition carries_mythic (span : ProgressSpan) : bool :=
  match find_b span with
  | Some progress_text => Py.contains "(M)" progress_text
  | None => false
  end.

Definition carries_heroic (span : ProgressSpan) : bool :=
  Py.contains "(H)" (span_text span).

(** The language of a candidate is the target language, whatever the case. *)
Definition language_matches (fetch_page : string → option string → option Soup)
    (target : string) (guild : Guild) : bool :=
  match get_guild_language fetch_page (url guild) with
  | Some language => same_ignoring_case language target
  | None => false
  end.

(** ** A small site, for the examples *)

Module Example.

Definition row (guild_name realm_text href : string) : Row :=
  RowTag (Some (mkLink (Some guild_name) (Some href))) (Some realm_text).

Definition mythic_span : ProgressSpan := mkSpan (Some "8/8 (M)") "8/8 (M)".
Definition heroic_span : ProgressSpan := mkSpan (Some "8/8 (H)") "8/8 (H)".

(** Tier 35, page -1: one EU guild, whose progress is mythic. *)
Definition first_page : Soup :=
  mkSoup [row "Alpha" "EU-Kazzak" "/guild/eu/kazzak/Alpha"] [mythic_span] None.

(** Tier 35, page 0: one EU guild and one US guild, none mythic. *)
Definition second_page : Soup :=
  mkSoup [row "Beta" "eu-Tarren Mill" "/guild/eu/tarren-mill/Beta";
          RowRaises;
          row "Gamma" "US-Illidan" "/guild/us/illidan/Gamma"]
         [mythic_span; heroic_span] None.

(** Tier 22, page -1: the guild of tier 35 again, under another address. *)
Definition old_page : Soup :=
  mkSoup [row "Alpha" "EU-Kazzak" "/guild/eu/kazzak/Alpha+old"] [heroic_span] None.

Definition detail (lang_text : string) : Soup := mkSoup [] [] (Some lang_text).

Definition site (url : string) (referer : option string) : option Soup :=
  if String.eqb url (rating_url 35 (-1)) then Some first_page
  else if String.eqb url (rating_url 35 0) then Some second_page
  else if String.eqb url (rating_url 22 (-1)) then Some old_page
  else if String.eqb url (BASE_URL +:+ "/guild/eu/kazzak/Alpha")
       then Some (detail "Primary Language: Finnish")
  else if String.eqb url (BASE_URL +:+ "/guild/eu/kazzak/Alpha+old")
       then Some (detail "Primary Language:  FINNISH ")
  else if String.eqb url (BASE_URL +:+ "/guild/eu/tarren-mill/Beta")
       then Some (detail "Primary Language:Swedish")
  else None.

(** The same site while page 0 of tier 35 cannot be fetched. *)
Definition site_failing (url : string) (referer : option string) : option Soup :=
  if String.eqb url (rating_url 35 0) then None else site url referer.

Definition alpha : Guild := mkGuild "Alpha" "Kazzak" "EU" "/guild/eu/kazzak/Alpha".
Definition alpha_old : Guild := mkGuild "Alpha" "Kazzak" "EU" "/guild/eu/kazzak/Alpha+old".
Definition beta : Guild := mkGuild "Beta" "Tarren Mill" "eu" "/guild/eu/tarren-mill/Beta".

Definition no_files : Files := mkFiles ∅ ∅ None.

End Example.

(** ** Vocabulary of the crawl *)

(** The request a crawl makes for [page] when it did not start below the
    first page: the referer is the address of the page before, and the
    first page refers to itself. *)
Definition request (fetch_page : string → option string → option Soup)
    (tier page : Z) : option Soup :=
  fetch_page (rating_url tier page)
    (Some (rating_url tier (if decide (page > -1) then page - 1 else -1))).

(** The fetch of [page] succeeds and the oracle says "continue". *)
Definition continues (fetch_page : string → option string → option Soup)
    (has_progress : Soup → bool) (tier page : Z) : Prop :=
  ∃ soup, request fetch_page tier page = Some soup ∧ has_progress soup = true.

(** The records of the [n] pages from [start] on. *)
Definition pages_guilds (fetch_page : string → option string → option Soup)
    (tier start : Z) (n : nat) : list Guild :=
  flat_map (λ i : nat,
              match request fetch_page tier (start + Z.of_nat i) with
              | Some soup => extract_guilds_from_page soup
              | None => []
              end) (seq 0 n).

(** The offset stored for [tier] in a tier-progress file. *)
Definition stored_offset (progress_file : gmap string ProgressEntry) (tier : Z)
  : option Z :=
  last_page <$> progress_file !! pretty tier.

(** [o] is no offset, or an offset below [p]. *)
Definition offset_below (o : option Z) (p : Z) : Prop :=
  ∀ x, o = Some x → x < p.

(** The loop of the Tier Crawler goes from [c] to [c'] in one iteration. *)
Definition crawl_next (fetch_page : string → option string → option Soup)
    (has_progress : Soup → bool) (tier : Z) (c c' : Crawl) : Prop :=
  crawl_step fetch_page has_progress tier c = inl c'.

(** The loop state is one a crawl from the first page or later reaches:
    the page is no earlier than the first, and the referer is the one of
    [request]. *)
Definition well_referred (tier : Z) (c : Crawl) : Prop :=
  -1 ≤ page c ∧
  referer_for tier (page c) (prev_url c)
    = rating_url tier (if decide (page c > -1) then page c - 1 else -1).

(** Idempotent resumption as the specification states it, for a site
    [fetch_page] and the same site with a page that fails, [fetch_failing]:
    the crawl resumed behind the offset the interrupted crawl has saved
    returns the records of the uninterrupted crawl. *)
Definition resumption_reproduces
    (fetch_page fetch_failing : string → option string → option Soup)
    (has_progress : Soup → bool) (fuel : nat) (tier : Z) : Prop :=
  ∀ partial progress1 saved resumed progress2 full progress3,
    scrape_tier_guilds fetch_failing has_progress fuel tier (-1) ∅
      = Some (partial, progress1) →
    stored_offset progress1 tier = Some saved →
    scrape_tier_guilds fetch_page has_progress fuel tier (saved + 1) progress1
      = Some (resumed, progress2) →
    scrape_tier_guilds fetch_page has_progress fuel tier (-1) ∅
      = Some (full, progress3) →
    ∀ guild, guild ∈ resumed ↔ guild ∈ full.

(** ** Vocabulary of the merge *)

(** The records the tier-records map holds for [tier]. *)
Definition stored_guilds (all_guilds_data : gmap string TierData) (tier : Z)
  : list Guild :=
  default [] (guilds <$> all_guilds_data !! pretty tier).

(** The last of [guilds] whose key is [key]. *)
Definition last_with_key (key : string) (guilds : list Guild) : option Guild :=
  last (List.filter (λ guild, String.eqb (unique_key guild) key) guilds).

(** The tiers in the order in which [main] goes through them. *)
Definition tiers_in_order : list Z := range_down END_TIER (START_TIER - 1).

(** ** Vocabulary of the combine tool *)

(** The first of [guilds] whose combine key is [key]. *)
Definition first_with_key (key : string) (guilds : list FinalGuild)
  : option FinalGuild :=
  List.find (λ guild, String.eqb (Combine.key guild) key) guilds.

(** The records of [guilds] whose combine key is [key]. *)
Definition all_with_key (key : string) (guilds : list FinalGuild) : list FinalGuild :=
  List.filter (λ guild, String.eqb (Combine.key guild) key) guilds.

(** [a] is not behind [b] in the alphabet, by name and whatever the case:
    by the names as [lower] gives them. *)
Definition name_le (lower : string → string) (a b : FinalGuild) : Prop :=
  String.le (lower (final_name a)) (lower (final_name b)).

(** A dictionary of the combine tool: every record stands under its own
    key, and no key stands twice. *)
Definition keyed (d : ODict.t FinalGuild) : Prop :=
  NoDup (ODict.keys d) ∧ Forall (λ kv, kv.1 = Combine.key kv.2) d.

(** Two final-output files for the examples: the second lists a guild of
    the first with another casing of the region. *)
Module Sample.

Definition first_file : list FinalGuild :=
  [mkFinal "beta" "Tarren Mill" "EU"; mkFinal "Alpha" "Kazzak" "EU"].

Definition second_file : list FinalGuild :=
  [mkFinal "Alpha" "Kazzak" "eu"; mkFinal "alpaca" "Kazzak" "EU"].

Definition dashed_name : FinalGuild := mkFinal "A-B" "C" "EU".
Definition dashed_realm : FinalGuild := mkFinal "A" "B-C" "EU".

End Sample.

(** ** The retrying fetcher of main.py

    The crawl and the filter above take the fetcher as a parameter; this is
    the one main.py runs, over a transport that answers the [attempt]-th
    request for a URL. *)

Module Transport.

(** The outcome of [session.post] and [raise_for_status]. *)
Inductive Response :=
| Page (soup : Soup)
| Forbidden
| HttpError
| Failure.

(** The [for attempt in range(retry_count)] loop of [fetch_page], from
    [attempt] on with [remaining] attempts left; falling out of the loop
    returns [None]. *)
Fixpoint attempts (post : nat → Response) (retry_count attempt remaining : nat)
  : option Soup :=
  match remaining with
  | O => None
  | S remaining' =>
      match post attempt with
      | Page soup => Some soup
      | Forbidden => attempts post retry_count (S attempt) remaining'
      | HttpError =>
          if Nat.eqb attempt (retry_count - 1) then None
          else attempts post retry_count (S attempt) remaining'
      | Failure =>
          if Nat.ltb attempt (retry_count - 1)
          then attempts post retry_count (S attempt) remaining'
          else None
      end
  end.

(** main.py, [fetch_page], with its default [retry_count]. *)
Definition fetch_page (post : string → option string → nat → Response)
    (url : string) (referer : option string) : option Soup :=
  attempts (post url referer) 3 0 3.

End Transport.

(** ** More of the transport: waits, and the fetcher of main_cloudscraper.py *)

Definition DELAY_BETWEEN_REQUESTS : Z := 1.

(** What a call of [fetch_page] has done: the page it returns, the number of
    requests it has sent and the seconds it has slept. *)
Record Fetched := mkFetched {
  fetched : option Soup;
  requests : nat;
  slept : Z
}.

(** The first attempt from [attempt] on that gets a page gets [soup]. *)
Definition first_page (post : nat → Transport.Response) (attempt retry_count : nat)
    (soup : Soup) : Prop :=
  ∃ i, (attempt ≤ i < retry_count)%nat ∧ post i = Transport.Page soup ∧
       ∀ j soup', (attempt ≤ j < i)%nat → post j ≠ Transport.Page soup'.

Module Timed.

(** What one pass through the [try] block of [fetch_page] meets: the page;
    a 403 or another HTTP error from [raise_for_status]; an exception of
    the request itself; or an exception of the parser, which is raised
    behind the sleep that follows a good response. *)
Inductive Outcome :=
| Got (soup : Soup)
| Refused
| HttpFailed
| RequestFailed
| ParseFailed.

(** The outcome without its timing. *)
Definition response (o : Outcome) : Transport.Response :=
  match o with
  | Got soup => Transport.Page soup
  | Refused => Transport.Forbidden
  | HttpFailed => Transport.HttpError
  | RequestFailed | ParseFailed => Transport.Failure
  end.

(** One more request and [seconds] more of sleep in front of [f]. *)
Definition after (seconds : Z) (f : Fetched) : Fetched :=
  mkFetched (fetched f) (S (requests f)) (seconds + slept f).

(** main.py, [fetch_page], with [time.sleep]: a good response is followed
    by the delay between requests, a 403 by three seconds per attempt made,
    another HTTP error by no wait, and any other exception but the last by
    two seconds per attempt made. *)
Fixpoint attempts (post : nat → Outcome)
    (retry_count attempt remaining : nat) : Fetched :=
  match remaining with
  | O => mkFetched None 0 0
  | S remaining' =>
      match post attempt with
      | Got soup => mkFetched (Some soup) 1 DELAY_BETWEEN_REQUESTS
      | Refused =>
          after (3 * (Z.of_nat attempt + 1))
            (attempts post retry_count (S attempt) remaining')
      | HttpFailed =>
          if Nat.eqb attempt (retry_count - 1) then mkFetched None 1 0
          else after 0 (attempts post retry_count (S attempt) remaining')
      | RequestFailed =>
          if Nat.ltb attempt (retry_count - 1)
          then after (2 * (Z.of_nat attempt + 1))
                 (attempts post retry_count (S attempt) remaining')
          else mkFetched None 1 0
      | ParseFailed =>
          if Nat.ltb attempt (retry_count - 1)
          then after (DELAY_BETWEEN_REQUESTS + 2 * (Z.of_nat attempt + 1))
                 (attempts post retry_count (S attempt) remaining')
          else mkFetched None 1 DELAY_BETWEEN_REQUESTS
      end
  end.

Definition fetch_page (post : string → option string → nat → Outcome)
    (url : string) (referer : option string) : Fetched :=
  attempts (post url referer) 3 0 3.

End Timed.

Module Cloudscraper.

(** main_cloudscraper.py, [fetch_page]: one [except Exception] clause for
    every failure, with two seconds of sleep per attempt made, but after the
    last attempt. *)
Fixpoint attempts (post : nat → Timed.Outcome)
    (retry_count attempt remaining : nat) : Fetched :=
  match remaining with
  | O => mkFetched None 0 0
  | S remaining' =>
      match post attempt with
      | Timed.Got soup => mkFetched (Some soup) 1 DELAY_BETWEEN_REQUESTS
      | Timed.ParseFailed =>
          if Nat.ltb attempt (retry_count - 1)
          then Timed.after (DELAY_BETWEEN_REQUESTS + 2 * (Z.of_nat attempt + 1))
                 (attempts post retry_count (S attempt) remaining')
          else mkFetched None 1 DELAY_BETWEEN_REQUESTS
      | _ =>
          if Nat.ltb attempt (retry_count - 1)
          then Timed.after (2 * (Z.of_nat attempt + 1))
                 (attempts post retry_count (S attempt) remaining')
          else mkFetched None 1 0
      end
  end.

Definition fetch_page (post : string → option string → nat → Timed.Outcome)
    (url : string) (referer : option string) : Fetched :=
  attempts (post url referer) 3 0 3.

End Cloudscraper.

(** ** Cookies (main.py, [load_cookies_from_file]) *)

Module Cookies.

(** The arguments of one [session.cookies.set]; a jar is the list of the
    calls that returned, in their order. *)
Record Cookie := mkCookie {
  cookie_name : string;
  cookie_value : string;
  cookie_domain : string;
  cookie_path : string;
  cookie_secure : bool;
  cookie_expires : option Z
}.

(** [s.split(sep)] for a one-character separator. *)
Fixpoint split (sep : ascii) (s : string) : list string :=
  match s with
  | EmptyString => [EmptyString]
  | String c s' =>
      if Ascii.eqb c sep then EmptyString :: split sep s'
      else match split sep s' with
           | [] => []
           | part :: parts => String c part :: parts
           end
  end.

(** The number of [sep] in [s]. *)
Fixpoint count (sep : ascii) (s : string) : nat :=
  match s with
  | EmptyString => O
  | String c s' => (if Ascii.eqb c sep then 1 else 0) + count sep s'
  end.

Definition tab : ascii := "009".

Section Load.

(** Python's [int] on a string; [None] is its [ValueError]. *)
Variable int : string → option Z.

(** [session.cookies.set] returns on these arguments.  It raises on some:
    the cookie jar converts the expiry with [float], which is an
    [OverflowError] on an integer out of the range of a double. *)
Variable accepts : Cookie → bool.

(** The body of [for line in f]: [None] when the line sets no cookie (a
    comment, a blank line, fewer than seven fields, or an exception caught
    by the inner [except], be it raised by [int] or by
    [session.cookies.set]). *)
Definition cookie_of_line (line : string) : option Cookie :=
  if String.prefix "#" line || String.eqb (Py.strip line) "" then None
  else
    let parts := split tab (Py.strip line) in
    if (7 <=? length parts)%nat then
      domain ← parts !! 0%nat;
      path ← parts !! 2%nat;
      secure ← (λ field, String.eqb field "TRUE") <$> parts !! 3%nat;
      expires_field ← parts !! 4%nat;
      expires ← (if negb (String.eqb expires_field "0")
                 then Some <$> int expires_field else Some None);
      name ← parts !! 5%nat;
      value ← parts !! 6%nat;
      let cookie := mkCookie name value domain path secure expires in
      if accepts cookie then Some cookie else None
    else None.




End Load.

End Cookies.

(** ** Vocabulary of the further properties *)

(** In [d] every value stands under the key [key] gives it, and no key
    stands twice. *)
Definition keyed_by {V} (key : V → string) (d : ODict.t V) : Prop :=
  NoDup (ODict.keys d) ∧ Forall (λ kv, kv.1 = key kv.2) d.

(** ** Fixtures of the further examples *)

Module Fixture.

(** A transport that refuses, then breaks, then answers. *)
Definition flaky (url : string) (referer : option string) (attempt : nat)
  : Timed.Outcome :=
  match attempt with
  | O => Timed.Refused
  | S O => Timed.RequestFailed
  | _ => Timed.Got Example.first_page
  end.

(** [int] on the decimal numerals the examples use. *)
Definition int (s : string) : option Z :=
  if String.eqb s "1893456000" then Some 1893456000
  else if String.eqb s "0" then Some 0
  else None.

(** A cookie jar that takes the expiries [float] converts. *)
Definition accepts (cookie : Cookies.Cookie) : bool :=
  match Cookies.cookie_expires cookie with
  | Some expires => Z.abs expires <? 2 ^ 1024 - 2 ^ 970
  | None => true
  end.

Definition field (text : string) (rest : string) : string :=
  text +:+ String Cookies.tab rest.

(** A cookie line of seven fields, with its line end. *)
Definition session_line : string :=
  field ".wowprogress.com" (field "TRUE" (field "/" (field "TRUE"
    (field "1893456000" (field "sessionid" ("abc123" +:+ String "010" "")))))).

(** The same cookie with an empty value. *)
Definition empty_value_body : string :=
  field ".wowprogress.com" (field "TRUE" (field "/" (field "TRUE"
    (field "1893456000" "sessionid")))).

Definition empty_value_line : string :=
  empty_value_body +:+ String Cookies.tab (String "010" "").


(** The loop of the example crawl of tier 35 at its start and behind its
    first iteration. *)
Definition crawl_start : Crawl := mkCrawl (-1) [] None ∅.

Definition crawl_second : Crawl :=
  mkCrawl 0 [Example.alpha] (Some (rating_url 35 (-1)))
    (<[pretty 35 := mkProgress (-1) 1]> ∅).

End Fixture.

(** * Properties *)

(** ** Strings *)

Lemma contains_char_cons (sep c : ascii) (s : string) :
  Py.contains (String sep EmptyString) (String c s) =
  Ascii.eqb sep c || Py.contains (String sep EmptyString) s.
Proof.
  cbn [Py.contains String.prefix].
  destruct (ascii_dec sep c) as [->|Hne].
  - rewrite Ascii.eqb_refl. by destruct s.
  - apply Ascii.eqb_neq in Hne as ->. done.
Qed.

Lemma split1_absent (sep : ascii) (s : string) :
  Py.contains (String sep EmptyString) s = false → Py.split1 sep s = [s].
Proof.
  induction s as [|c s IH]; [done|].
  rewrite contains_char_cons. intros [Hc Hs]%orb_false_elim.
  cbn [Py.split1]. rewrite Ascii.eqb_sym, Hc, (IH Hs). done.
Qed.

Lemma split1_first (sep : ascii) (before after : string) :
  Py.contains (String sep EmptyString) before = false →
  Py.split1 sep (before +:+ String sep after) = [before; after].
Proof.
  induction before as [|c before IH]; intros Hno.
  - change (EmptyString +:+ String sep after) with (String sep after).
    cbn [Py.split1]. by rewrite Ascii.eqb_refl.
  - rewrite contains_char_cons in Hno. apply orb_false_elim in Hno as [Hc Hs].
    change (String c before +:+ String sep after)
      with (String c (before +:+ String sep after)).
    cbn [Py.split1]. rewrite Ascii.eqb_sym, Hc, (IH Hs). done.
Qed.

Lemma split1_before_after (sep : ascii) (s : string) :
  Py.contains (String sep EmptyString) s = true →
  Py.split1 sep s = [before_first sep s; after_first sep s].
Proof.
  induction s as [|c s IH]; [done|].
  rewrite contains_char_cons. cbn [Py.split1 before_first after_first].
  rewrite (Ascii.eqb_sym sep c). destruct (Ascii.eqb c sep); [done|].
  cbn [orb]. intros ->%IH. done.
Qed.

Lemma contains_sep_app (sep : ascii) (before after : string) :
  Py.contains (String sep EmptyString) (before +:+ String sep after) = true.
Proof.
  induction before as [|c before IH].
  - change (EmptyString +:+ String sep after) with (String sep after).
    by rewrite contains_char_cons, Ascii.eqb_refl.
  - change (String c before +:+ String sep after)
      with (String c (before +:+ String sep after)).
    by rewrite contains_char_cons, IH, orb_true_r.
Qed.

Lemma before_after_first (sep : ascii) (before after : string) :
  Py.contains (String sep EmptyString) before = false →
  before_first sep (before +:+ String sep after) = before ∧
  after_first sep (before +:+ String sep after) = after.
Proof.
  intros Hno.
  pose proof (split1_before_after _ _ (contains_sep_app sep before after)) as Hs.
  rewrite (split1_first _ _ _ Hno) in Hs. by simplify_eq.
Qed.

Lemma app_cons (c : ascii) (s t : string) :
  String c s +:+ t = String c (s +:+ t).
Proof. reflexivity. Qed.

Lemma app_empty_l (t : string) : EmptyString +:+ t = t.
Proof. reflexivity. Qed.

Lemma string_app_empty_r (s : string) : s +:+ EmptyString = s.
Proof. induction s as [|c s IH]; [done|]. by rewrite app_cons, IH. Qed.

Lemma string_app_assoc (s t u : string) : (s +:+ t) +:+ u = s +:+ (t +:+ u).
Proof. induction s as [|c s IH]; [done|]. by rewrite !app_cons, IH. Qed.

Lemma string_app_length (s t : string) :
  String.length (s +:+ t) = (String.length s + String.length t)%nat.
Proof. induction s as [|c s IH]; [done|]. rewrite app_cons. cbn. lia. Qed.

(** *** White space *)

Lemma lstrip_space_head (s : string) :
  Py.lstrip s =
  match Py.space_head s with Some rest => Py.lstrip rest | None => s end.
Proof.
  destruct s as [|c [|c1 [|c2 s3]]]; cbn; try done;
    repeat (case_match; try done).
Qed.

Lemma blank_space_head (s : string) :
  Py.blank s =
  match s with
  | EmptyString => true
  | _ => match Py.space_head s with
         | Some rest => Py.blank rest
         | None => false
         end
  end.
Proof.
  destruct s as [|c [|c1 [|c2 s3]]]; cbn; try done;
    repeat (case_match; try done).
Qed.

Lemma space_charb_true (w : string) : space_charb w = true → space_char w.
Proof.
  unfold space_charb. rewrite existsb_exists. intros (point & Hin & Heq).
  exists point. split; [done|]. by apply String.eqb_eq.
Qed.

Lemma ascii_of_code (c : ascii) (n : N) : N_of_ascii c = n → c = ascii_of_N n.
Proof. intros <-. by rewrite ascii_N_embedding. Qed.

Lemma isspace_char (c : ascii) :
  Py.isspace c = true → space_char (String c EmptyString).
Proof.
  intros Hc. apply space_charb_true. revert Hc.
  destruct c as [[] [] [] [] [] [] [] []]; vm_compute; done.
Qed.

Lemma isspace2_char (c c1 : ascii) :
  Py.isspace2 c c1 = true → space_char (String c (String c1 EmptyString)).
Proof.
  unfold Py.isspace2. cbv zeta.
  rewrite andb_true_iff, orb_true_iff, !N.eqb_eq.
  intros [->%ascii_of_code [->%ascii_of_code| ->%ascii_of_code]];
    apply space_charb_true; by vm_compute.
Qed.

Lemma isspace3_char (c c1 c2 : ascii) :
  Py.isspace3 c c1 c2 = true →
  space_char (String c (String c1 (String c2 EmptyString))).
Proof.
  unfold Py.isspace3. cbv zeta.
  rewrite !orb_true_iff, !andb_true_iff, !N.eqb_eq.
  intros [[[[[Hc Hc1] Hc2]|[[Hc Hc1] Hc2]]|[[Hc Hc1] Hc2]]|[[Hc Hc1] Hc2]];
    apply ascii_of_code in Hc as ->; apply ascii_of_code in Hc1 as ->;
    apply space_charb_true; revert Hc2;
    destruct c2 as [[] [] [] [] [] [] [] []]; vm_compute;
    intuition discriminate.
Qed.

(** The encoded white-space characters are the strings [space_head]
    recognises. *)
Lemma space_char_cases (w : string) :
  space_char w →
  (∃ c, w = String c EmptyString ∧ Py.isspace c = true) ∨
  (∃ c c1, w = String c (String c1 EmptyString) ∧
     Py.isspace c = false ∧ Py.isspace2 c c1 = true) ∨
  (∃ c c1 c2, w = String c (String c1 (String c2 EmptyString)) ∧
     Py.isspace c = false ∧ Py.isspace2 c c1 = false ∧
     Py.isspace3 c c1 c2 = true).
Proof.
  intros (point & Hin & ->).
  assert (Py.space_head (utf8 point) = Some EmptyString) as Hhead.
  { cbn in Hin. repeat (destruct Hin as [<-|Hin]; [by vm_compute|]). done. }
  revert Hhead. generalize (utf8 point) as w. intros w.
  destruct w as [|c s1]; [done|]. cbn [Py.space_head].
  destruct (Py.isspace c) eqn:Hc.
  { intros [= ->]. left. by exists c. }
  destruct s1 as [|c1 s2]; [done|]. destruct (Py.isspace2 c c1) eqn:Hc1.
  { intros [= ->]. right. left. by exists c, c1. }
  destruct s2 as [|c2 s3]; [done|]. destruct (Py.isspace3 c c1 c2) eqn:Hc2.
  { intros [= ->]. right. right. by exists c, c1, c2. }
  done.
Qed.

Lemma space_head_app (w rest : string) :
  space_char w → Py.space_head (w +:+ rest) = Some rest.
Proof.
  intros [(c & -> & Hc)|[(c & c1 & -> & Hc & Hc1)
                        |(c & c1 & c2 & -> & Hc & Hc1 & Hc2)]]%space_char_cases;
    rewrite ?app_cons, app_empty_l; cbn [Py.space_head];
    by rewrite ?Hc, ?Hc1, ?Hc2.
Qed.

Lemma space_head_some (s rest : string) :
  Py.space_head s = Some rest → ∃ w, space_char w ∧ s = w +:+ rest.
Proof.
  destruct s as [|c s1]; [done|]. cbn [Py.space_head].
  destruct (Py.isspace c) eqn:Hc.
  { intros [= ->]. exists (String c EmptyString). split; [|done].
    by apply isspace_char. }
  destruct s1 as [|c1 s2]; [done|]. destruct (Py.isspace2 c c1) eqn:Hc1.
  { intros [= ->]. exists (String c (String c1 EmptyString)). split; [|done].
    by apply isspace2_char. }
  destruct s2 as [|c2 s3]; [done|]. destruct (Py.isspace3 c c1 c2) eqn:Hc2.
  { intros [= ->]. exists (String c (String c1 (String c2 EmptyString))).
    split; [|done]. by apply isspace3_char. }
  done.
Qed.

Lemma space_char_nonempty (w : string) : space_char w → w ≠ EmptyString.
Proof.
  intros [(c & -> & _)|[(c & c1 & -> & _)
                       |(c & c1 & c2 & -> & _)]]%space_char_cases; done.
Qed.

(** Induction along the white-space characters at the front of a string. *)
Lemma space_head_ind (P : string → Prop) :
  (∀ s, Py.space_head s = None → P s) →
  (∀ w rest, space_char w → P rest → P (w +:+ rest)) →
  ∀ s, P s.
Proof.
  intros Hnone Hsome s.
  remember (String.length s) as n eqn:Hn. revert s Hn.
  induction (lt_wf n) as [n _ IH]. intros s ->.
  destruct (Py.space_head s) as [rest|] eqn:Hs; [|by apply Hnone].
  apply space_head_some in Hs as (w & Hw & ->). apply Hsome; [done|].
  apply (IH (String.length rest)); [|done].
  rewrite string_app_length. apply space_char_nonempty in Hw.
  destruct w; [done|]. cbn. lia.
Qed.

Lemma lstrip_space_char (w rest : string) :
  space_char w → Py.lstrip (w +:+ rest) = Py.lstrip rest.
Proof. intros Hw. by rewrite lstrip_space_head, space_head_app. Qed.

Lemma blank_space_char (w rest : string) :
  space_char w → Py.blank (w +:+ rest) = Py.blank rest.
Proof.
  intros Hw. rewrite blank_space_head, space_head_app by done.
  apply space_char_nonempty in Hw. by destruct w.
Qed.

Lemma blank_all_space (s : string) : Py.blank s = true ↔ all_space s.
Proof.
  split.
  - induction s as [s Hs|w rest Hw IH] using space_head_ind.
    + rewrite blank_space_head, Hs. destruct s; [constructor|done].
    + rewrite blank_space_char by done. intros Hrest.
      constructor; [done|by apply IH].
  - induction 1 as [|w s Hw _ IH]; [done|]. by rewrite blank_space_char.
Qed.

Ltac bool_arith :=
  unfold starts_space, Py.isspace, Py.isspace2, Py.isspace3 in *; cbv zeta in *;
  repeat match goal with
         | H : _ = false |- _ => apply not_true_iff_false in H
         | |- _ = false => apply not_true_iff_false
         end;
  repeat (progress
    rewrite ?orb_true_iff, ?andb_true_iff, ?N.eqb_eq, ?N.leb_le in * );
  lia.

Lemma space_head_starts (c : ascii) (s rest : string) :
  Py.space_head (String c s) = Some rest → starts_space c = true.
Proof.
  cbn [Py.space_head]. destruct (Py.isspace c) eqn:Hc.
  { intros _. unfold starts_space. by rewrite Hc. }
  destruct s as [|c1 s2]; [done|]. destruct (Py.isspace2 c c1) eqn:Hc1.
  { intros _. clear Hc. bool_arith. }
  destruct s2 as [|c2 s3]; [done|]. destruct (Py.isspace3 c c1 c2) eqn:Hc2.
  { intros _. clear Hc Hc1. bool_arith. }
  done.
Qed.

Lemma isspace2_continues (c c1 : ascii) :
  starts_space c1 = true → Py.isspace2 c c1 = false.
Proof. intros H. bool_arith. Qed.

Lemma isspace3_continues (c c1 c2 : ascii) :
  starts_space c1 = true ∨ starts_space c2 = true →
  Py.isspace3 c c1 c2 = false.
Proof. intros H. bool_arith. Qed.

(** White space after a text does not complete a character the text leaves
    open: an encoded white-space character ends in bytes that start none. *)
Lemma space_head_before_blank (u b : string) :
  u ≠ EmptyString → Py.blank b = true →
  Py.space_head (u +:+ b) = (λ rest, rest +:+ b) <$> Py.space_head u.
Proof.
  intros Hu Hb.
  assert (b = EmptyString ∨
          ∃ c b', b = String c b' ∧ starts_space c = true) as Hstart.
  { destruct b as [|c b']; [by left|right]. exists c, b'. split; [done|].
    rewrite blank_space_head in Hb.
    destruct (Py.space_head (String c b')) eqn:Hh; [|done].
    by eapply space_head_starts. }
  clear Hb. destruct Hstart as [->|(d & b' & -> & Hd)].
  { rewrite string_app_empty_r. destruct (Py.space_head u); cbn; [|done].
    by rewrite string_app_empty_r. }
  destruct u as [|c [|c1 [|c2 u3]]]; [done|..];
    rewrite ?app_cons, ?app_empty_l; cbn [Py.space_head].
  - destruct (Py.isspace c); [done|].
    rewrite isspace2_continues by done.
    destruct b' as [|d' b'']; [done|].
    rewrite isspace3_continues by auto. done.
  - destruct (Py.isspace c); [done|]. destruct (Py.isspace2 c c1); [done|].
    rewrite isspace3_continues by auto. done.
  - destruct (Py.isspace c); [done|]. destruct (Py.isspace2 c c1); [done|].
    by destruct (Py.isspace3 c c1 c2).
Qed.

Lemma blank_before_blank (u b : string) :
  Py.blank b = true → Py.blank (u +:+ b) = Py.blank u.
Proof.
  intros Hb. induction u as [u Hu|w rest Hw IH] using space_head_ind.
  - destruct u as [|c u]; [done|].
    rewrite (blank_space_head (String c u)), Hu.
    rewrite blank_space_head, space_head_before_blank, Hu by done.
    by rewrite app_cons.
  - by rewrite string_app_assoc, !(blank_space_char w).
Qed.

Lemma lstrip_split (s : string) :
  ∃ lead, s = lead +:+ Py.lstrip s ∧ all_space lead.
Proof.
  induction s as [s Hs|w rest Hw IH] using space_head_ind.
  - exists EmptyString. rewrite lstrip_space_head, Hs. split; [done|constructor].
  - destruct IH as (lead & Hrest & Hlead). exists (w +:+ lead).
    rewrite lstrip_space_char, string_app_assoc, <- Hrest by done.
    split; [done|by constructor].
Qed.

Lemma lstrip_head (s : string) : Py.space_head (Py.lstrip s) = None.
Proof.
  induction s as [s Hs|w rest Hw IH] using space_head_ind.
  - by rewrite lstrip_space_head, Hs.
  - by rewrite lstrip_space_char.
Qed.

Lemma lstrip_all_space (s : string) : all_space s → Py.lstrip s = EmptyString.
Proof. induction 1 as [|w s Hw _ IH]; [done|]. by rewrite lstrip_space_char. Qed.

Lemma rstrip_all_space (s : string) : all_space s → Py.rstrip s = EmptyString.
Proof. intros Hs%blank_all_space. destruct s; [done|]. cbn [Py.rstrip]. by rewrite Hs. Qed.

Lemma rstrip_split (s : string) :
  ∃ trail, s = Py.rstrip s +:+ trail ∧ all_space trail.
Proof.
  induction s as [|c s IH]; [exists EmptyString; split; [done|constructor]|].
  cbn [Py.rstrip]. destruct (Py.blank (String c s)) eqn:Hb.
  - exists (String c s). split; [done|by apply blank_all_space].
  - destruct IH as (trail & Hs & Htrail). exists trail.
    by rewrite app_cons, <- Hs.
Qed.

Lemma rstrip_trailing_space (body trail : string) :
  all_space trail → Py.rstrip (body +:+ trail) = Py.rstrip body.
Proof.
  intros Htrail. induction body as [|c body IH].
  - rewrite app_empty_l. by apply rstrip_all_space.
  - rewrite app_cons. cbn [Py.rstrip].
    rewrite <- app_cons, blank_before_blank by by apply blank_all_space.
    by rewrite IH.
Qed.

(** [rstrip] leaves a prefix of its argument. *)
Lemma rstrip_prefix (s : string) : ∃ trail, s = Py.rstrip s +:+ trail.
Proof. destruct (rstrip_split s) as (trail & ? & _). by exists trail. Qed.

Lemma strip_trimmed (s : string) : trimmed s (Py.strip s).
Proof.
  destruct (lstrip_split s) as (lead & Hs & Hlead).
  destruct (rstrip_split (Py.lstrip s)) as (trail & Hl & Htrail).
  exists lead, trail. unfold Py.strip. rewrite <- Hl.
  split_and!; try done. split.
  - intros w r' Hw Hr. pose proof (lstrip_head s) as Hhead.
    rewrite Hl, Hr, string_app_assoc, space_head_app in Hhead; done.
  - intros r' w Hw Hr.
    assert (all_space (w +:+ trail)) as Hblank by by constructor.
    pose proof (rstrip_trailing_space r' _ Hblank) as Heq.
    rewrite <- string_app_assoc, <- Hr, <- Hl in Heq.
    destruct (rstrip_prefix r') as (t & Ht).
    rewrite <- Heq, Hr in Ht. apply (f_equal String.length) in Ht.
    rewrite !string_app_length in Ht. apply space_char_nonempty in Hw.
    destruct w; [done|]. cbn in Ht. lia.
Qed.

Lemma strip_leading_space (c : ascii) (s : string) :
  Py.isspace c = true → Py.strip (String c s) = Py.strip s.
Proof. intros Hc. unfold Py.strip. cbn [Py.lstrip]. by rewrite Hc. Qed.

Lemma strip_leading_all_space (space s : string) :
  all_space space → Py.strip (space +:+ s) = Py.strip s.
Proof.
  unfold Py.strip. induction 1 as [|w space Hw _ IH]; [done|].
  by rewrite string_app_assoc, lstrip_space_char.
Qed.

Lemma strip_no_outer_space (s : string) : no_outer_space (Py.strip s).
Proof. by destruct (strip_trimmed s) as (_ & _ & _ & _ & _ & ?). Qed.

Lemma strip_all_space (s : string) : all_space s → Py.strip s = EmptyString.
Proof. intros Hs. unfold Py.strip. by rewrite lstrip_all_space. Qed.

Lemma strip_trailing_space (body trail : string) :
  all_space trail → Py.strip (body +:+ trail) = Py.strip body.
Proof.
  intros Htrail. unfold Py.strip.
  induction body as [body Hbody|w rest Hw IH] using space_head_ind.
  - destruct body as [|c body].
    + rewrite app_empty_l. by rewrite lstrip_all_space.
    + rewrite (lstrip_space_head (String c body)), Hbody.
      rewrite lstrip_space_head, space_head_before_blank, Hbody
        by (done || by apply blank_all_space).
      cbn [fmap option_fmap option_map]. by apply rstrip_trailing_space.
  - by rewrite string_app_assoc, !(lstrip_space_char w).
Qed.

Lemma upper_E (c : ascii) :
  Ascii.eqb (Py.upper_char c) "E" = Ascii.eqb (Py.lower_char c) "e".
Proof. by destruct c as [[] [] [] [] [] [] [] []]. Qed.

Lemma upper_U (c : ascii) :
  Ascii.eqb (Py.upper_char c) "U" = Ascii.eqb (Py.lower_char c) "u".
Proof. by destruct c as [[] [] [] [] [] [] [] []]. Qed.

(** The test [region.upper() == 'EU'] compares without regard to case. *)
Lemma upper_EU (s : string) :
  String.eqb (Py.upper s) "EU" = same_ignoring_case s "EU".
Proof.
  unfold same_ignoring_case.
  destruct s as [|c1 [|c2 [|c3 s]]]; cbn; rewrite ?upper_E, ?upper_U; try done.
  all: by destruct (Ascii.eqb (Py.lower_char c1) "e"),
               (Ascii.eqb (Py.lower_char c2) "u").
Qed.

(** ** Fetcher *)

(** The fetcher of main.py fails exactly when none of its three attempts
    gets a page. *)
Lemma fetch_page_fails (post : string → option string → nat → Transport.Response)
    (url : string) (referer : option string) :
  Transport.fetch_page post url referer = None ↔
  ∀ attempt soup, (attempt < 3)%nat → post url referer attempt ≠ Transport.Page soup.
Proof.
  unfold Transport.fetch_page. cbn.
  destruct (post url referer 0%nat) eqn:H0;
    destruct (post url referer 1%nat) eqn:H1;
    destruct (post url referer 2%nat) eqn:H2; cbn;
    (split;
     [ try done; intros _ [|[|[|i]]] soup' Hi; (congruence || lia)
     | intros Hnone; try done; exfalso;
       first [ by eapply (Hnone 0%nat); [lia|]
             | by eapply (Hnone 1%nat); [lia|]
             | by eapply (Hnone 2%nat); [lia|] ] ]).
Qed.

(** ** Row Extractor *)

Lemma extract_row_valid (row : Row) :
  extract_row row = if valid_eu_row row then Some (row_record row) else None.
Proof.
  destruct row as [|[[[nobr|] href]|] [realm_link|]]; try done.
  cbn [extract_row valid_eu_row row_record find_nobr get_href mbind option_bind default].
  rewrite bool_decide_true by eauto. cbn [andb].
  destruct (Py.contains "-" (Py.strip realm_link)) eqn:Hhyphen; [|done].
  rewrite (split1_before_after _ _ Hhyphen). cbn.
  rewrite upper_EU. by destruct (same_ignoring_case _ _).
Qed.

Lemma extract_guilds_loop_app (guilds : list Guild) (rows : list Row) :
  extract_guilds_loop guilds rows = guilds ++ omap extract_row rows.
Proof.
  revert guilds. induction rows as [|row rows IH]; intros guilds.
  - by rewrite app_nil_r.
  - cbn. unfold extract_guilds_loop in IH. rewrite IH.
    destruct (extract_row row); [|done]. by rewrite <- app_assoc.
Qed.

Lemma omap_extract_row (rows : list Row) :
  omap extract_row rows = row_record <$> List.filter valid_eu_row rows.
Proof.
  induction rows as [|row rows IH]; [done|].
  cbn. rewrite extract_row_valid. destruct (valid_eu_row row); cbn; by rewrite IH.
Qed.

Lemma extract_guilds_filter (soup : Soup) :
  extract_guilds_from_page soup
    = row_record <$> List.filter valid_eu_row (find_all_tr soup).
Proof.
  unfold extract_guilds_from_page.
  by rewrite extract_guilds_loop_app, omap_extract_row.
Qed.

(** A row that is not valid, wherever it stands, changes nothing. *)
Lemma extract_guilds_skips (before after : list Row) (row : Row)
    (spans : list ProgressSpan) (lang : option string) :
  valid_eu_row row = false →
  extract_guilds_from_page (mkSoup (before ++ row :: after) spans lang)
    = extract_guilds_from_page (mkSoup (before ++ after) spans lang).
Proof.
  intros Hrow. rewrite !extract_guilds_filter. cbn [find_all_tr].
  rewrite !List.filter_app. cbn [List.filter]. by rewrite Hrow.
Qed.

(** C3. The Row Extractor returns, in document order, the record of every
    row that has a guild anchor with a name node and a realm anchor whose
    text has a hyphen and whose region part is "EU" whatever the case, and
    nothing for any other row (no anchor, no name node, no hyphen, another
    region, an exception while parsing); so it returns as many records as
    the page has such rows. *)
Theorem extract_guilds_valid_rows (soup : Soup) :
  extract_guilds_from_page soup
    = row_record <$> List.filter valid_eu_row (find_all_tr soup) ∧
  length (extract_guilds_from_page soup)
    = length (List.filter valid_eu_row (find_all_tr soup)) ∧
  valid_eu_row RowRaises = false.
Proof.
  split; [apply extract_guilds_filter|].
  split; [|done]. by rewrite extract_guilds_filter, length_fmap.
Qed.

(** A no-break space between the region and the hyphen is white space for
    [strip]: the row is an EU row, and its region is recorded without it. *)
Example extract_guilds_no_break_space :
  extract_guilds_from_page
    (mkSoup [Example.row "Alpha" ("EU" +:+ utf8 160 +:+ "-Kazzak") "/guild/a";
             Example.row "Beta" "EU-Kazzak" "/guild/b"] [] None)
  = [mkGuild "Alpha" "Kazzak" "EU" "/guild/a";
     mkGuild "Beta" "Kazzak" "EU" "/guild/b"].
Proof. reflexivity. Qed.

(** ** Termination Oracle *)

(** C4. Without progress elements both oracles answer "do not continue";
    with some, whatever the earlier elements are, the mythic oracle
    answers "continue" exactly when the bold child of the last element has
    the marker "(M)", and the heroic oracle exactly when the text of the
    last element has the marker "(H)". *)
Theorem oracle_last_element (rows : list Row) (lang : option string)
    (earlier : list ProgressSpan) (last_span : ProgressSpan) :
  has_mythic_progress (mkSoup rows [] lang) = false ∧
  has_heroic_progress (mkSoup rows [] lang) = false ∧
  has_mythic_progress (mkSoup rows (earlier ++ [last_span]) lang)
    = carries_mythic last_span ∧
  has_heroic_progress (mkSoup rows (earlier ++ [last_span]) lang)
    = carries_heroic last_span.
Proof.
  unfold has_mythic_progress, has_heroic_progress. cbn [find_all_ratingProgress].
  rewrite last_snoc. done.
Qed.

Example extract_first_page :
  extract_guilds_from_page Example.first_page = [Example.alpha].
Proof. reflexivity. Qed.

Example extract_second_page :
  extract_guilds_from_page Example.second_page = [Example.beta].
Proof. reflexivity. Qed.

(** The example of the specification: the first guild of the page has the
    mythic marker and the last one has not. *)
Example oracle_second_page :
  has_mythic_progress Example.second_page = false ∧
  has_heroic_progress Example.second_page = true.
Proof. split; reflexivity. Qed.

(** ** Language classifier *)

(** C7. When the detail page can be fetched and the text of its language
    field has a colon, the classifier returns the text behind the first
    colon without the white space around it, and a space behind the colon
    changes nothing; it returns nothing when the page cannot be fetched,
    when there is no language field and when the field has no colon. *)
Theorem get_guild_language_value
    (fetch_page : string → option string → option Soup) (guild_url : string) :
  (∀ soup label value,
     fetch_page (BASE_URL +:+ guild_url) None = Some soup →
     find_div_language soup = Some (label +:+ ":" +:+ value) →
     Py.contains ":" label = false →
     get_guild_language fetch_page guild_url = Some (Py.strip value) ∧
     trimmed value (Py.strip value) ∧
     Py.strip (" " +:+ value) = Py.strip value ∧
     (∀ space, all_space space →
               Py.strip (space +:+ value) = Py.strip value)) ∧
  (fetch_page (BASE_URL +:+ guild_url) None = None →
     get_guild_language fetch_page guild_url = None) ∧
  (∀ soup,
     fetch_page (BASE_URL +:+ guild_url) None = Some soup →
     find_div_language soup = None →
     get_guild_language fetch_page guild_url = None) ∧
  (∀ soup lang_text,
     fetch_page (BASE_URL +:+ guild_url) None = Some soup →
     find_div_language soup = Some lang_text →
     Py.contains ":" lang_text = false →
     get_guild_language fetch_page guild_url = None).
Proof.
  unfold get_guild_language. split; [|split; [|split]].
  - intros soup label value -> -> Hlabel.
    split; [|split; [apply strip_trimmed|split;
      [by apply strip_leading_space
      |intros space Hspace; by apply strip_leading_all_space]]].
    change (label +:+ ":" +:+ value) with (label +:+ String ":" value).
    rewrite (contains_sep_app ":" label value).
    by rewrite (split1_first ":" label value Hlabel).
  - by intros ->.
  - by intros soup -> ->.
  - by intros soup lang_text -> -> ->.
Qed.

(** A no-break space behind the colon is trimmed like a space. *)
Example get_guild_language_no_break_space :
  get_guild_language
    (λ _ _, Some (Example.detail ("Primary Language:" +:+ utf8 160 +:+ "Finnish")))
    "/guild/eu/kazzak/Alpha" = Some "Finnish".
Proof. reflexivity. Qed.

(** The two examples of the specification: with and without a space behind
    the colon. *)
Lemma get_guild_language_value_witness :
  get_guild_language Example.site "/guild/eu/kazzak/Alpha" = Some "Finnish" ∧
  get_guild_language Example.site "/guild/eu/tarren-mill/Beta" = Some "Swedish".
Proof.
  split.
  - exact (proj1 (proj1 (get_guild_language_value Example.site "/guild/eu/kazzak/Alpha")
                   (Example.detail "Primary Language: Finnish")
                   "Primary Language" " Finnish" eq_refl eq_refl eq_refl)).
  - exact (proj1 (proj1 (get_guild_language_value Example.site "/guild/eu/tarren-mill/Beta")
                   (Example.detail "Primary Language:Swedish")
                   "Primary Language" "Swedish" eq_refl eq_refl eq_refl)).
Defined.

(** ** Language Filter *)

Lemma is_finnish_matches (fetch_page : string → option string → option Soup)
    (guild : Guild) :
  is_finnish (get_guild_language fetch_page (url guild))
    = language_matches fetch_page "Finnish" guild.
Proof.
  unfold is_finnish, language_matches.
  destruct (get_guild_language fetch_page (url guild)) as [[|c l]|]; done.
Qed.

Lemma filter_loop (fetch_page : string → option string → option Soup)
    (guilds : list Guild) (finnish_guilds : list FinalGuild)
    (final_file : option (list FinalGuild)) :
  let kept := List.filter (language_matches fetch_page "Finnish") guilds in
  foldl (filter_step fetch_page) (finnish_guilds, final_file) guilds
    = (finnish_guilds ++ (drop_url <$> kept),
       match kept with
       | [] => final_file
       | _ => Some (finnish_guilds ++ (drop_url <$> kept))
       end).
Proof.
  revert finnish_guilds final_file.
  induction guilds as [|guild guilds IH]; intros finnish_guilds final_file.
  - cbn. by rewrite app_nil_r.
  - cbn [foldl List.filter filter_step]. rewrite is_finnish_matches.
    destruct (language_matches fetch_page "Finnish" guild); [|apply IH].
    rewrite IH. cbn zeta. rewrite <- app_assoc. cbn [fmap list_fmap app].
    by destruct (List.filter _ guilds); rewrite ?app_nil_r.
Qed.

(** C8. The Language Filter returns, in the order of its input, the name,
    realm and region of exactly the candidates whose classified language is
    present and equals "Finnish" whatever the case; the final output file
    holds that list from the first match on; a candidate whose page cannot
    be fetched is no match, and the candidates behind it are still tried. *)
Theorem filter_finnish_guilds_keeps
    (fetch_page : string → option string → option Soup)
    (guilds : list Guild) (final_file : option (list FinalGuild)) :
  let kept := List.filter (language_matches fetch_page "Finnish") guilds in
  filter_finnish_guilds fetch_page guilds final_file
    = (drop_url <$> kept,
       match kept with [] => final_file | _ => Some (drop_url <$> kept) end) ∧
  (∀ guild, In guild kept ↔
     In guild guilds ∧
     ∃ language, get_guild_language fetch_page (url guild) = Some language ∧
                 Py.lower language = Py.lower "Finnish") ∧
  (∀ guild, drop_url guild = mkFinal (name guild) (realm guild) (region guild)) ∧
  (∀ guild, fetch_page (BASE_URL +:+ url guild) None = None →
            language_matches fetch_page "Finnish" guild = false).
Proof.
  intros kept. split; [apply (filter_loop fetch_page guilds [])|].
  split; [|split; [done|]].
  - intros guild. unfold kept. rewrite List.filter_In.
    unfold language_matches, same_ignoring_case.
    destruct (get_guild_language fetch_page (url guild)) as [l|].
    + rewrite String.eqb_eq. split.
      * intros [Hin Heq]. eauto.
      * by intros [Hin (l' & [= <-] & Heq)].
    + split; [by intros [_ ?]|by intros [_ (l' & ? & _)]].
  - intros guild Hfail. unfold language_matches, get_guild_language.
    by rewrite Hfail.
Qed.

Lemma filter_finnish_guilds_keeps_witness :
  fst (filter_finnish_guilds Example.site
         [Example.alpha; mkGuild "Gamma" "Illidan" "EU" "/guild/gone";
          Example.beta; Example.alpha_old] None)
    = [mkFinal "Alpha" "Kazzak" "EU"; mkFinal "Alpha" "Kazzak" "EU"] ∧
  language_matches Example.site "Finnish"
    (mkGuild "Gamma" "Illidan" "EU" "/guild/gone") = false.
Proof.
  pose proof (filter_finnish_guilds_keeps Example.site
                [Example.alpha; mkGuild "Gamma" "Illidan" "EU" "/guild/gone";
                 Example.beta; Example.alpha_old] None) as (Hrun & _ & _ & Hfail).
  split.
  - rewrite Hrun. reflexivity.
  - apply Hfail. reflexivity.
Defined.

(** ** Tier Crawler *)

Section Crawler.

Variable fetch_page : string → option string → option Soup.
Variable has_progress : Soup → bool.
Variable tier : Z.

Local Abbreviation step := (crawl_step fetch_page has_progress tier).
Local Abbreviation loop := (crawl_loop fetch_page has_progress).
Local Abbreviation next := (crawl_next fetch_page has_progress tier).

Lemma well_referred_start (start_page : Z) (progress_file : gmap string ProgressEntry) :
  -1 ≤ start_page → well_referred tier (mkCrawl start_page [] None progress_file).
Proof. by split. Qed.

(** What an iteration that goes on has done. *)
Lemma crawl_step_inl (c c' : Crawl) :
  step c = inl c' →
  ∃ soup,
    fetch_page (rating_url tier (page c))
      (Some (referer_for tier (page c) (prev_url c))) = Some soup ∧
    has_progress soup = true ∧
    c' = mkCrawl (page c + 1) (all_guilds c ++ extract_guilds_from_page soup)
           (Some (rating_url tier (page c)))
           (<[pretty tier :=
                mkProgress (page c)
                  (length (all_guilds c ++ extract_guilds_from_page soup))]>
              (progress c)).
Proof.
  unfold crawl_step.
  destruct (fetch_page _ _) as [soup|]; [|done].
  destruct (has_progress soup) eqn:Hp; [|done].
  intros [= <-]. eauto.
Qed.

(** What an iteration that stops has done: nothing is written. *)
Lemma crawl_step_inr (c : Crawl) (result : list Guild * gmap string ProgressEntry) :
  step c = inr result →
  result.2 = progress c ∧
  (fetch_page (rating_url tier (page c))
     (Some (referer_for tier (page c) (prev_url c))) = None ∧
   result.1 = all_guilds c
   ∨ ∃ soup,
     fetch_page (rating_url tier (page c))
       (Some (referer_for tier (page c) (prev_url c))) = Some soup ∧
     has_progress soup = false ∧
     result.1 = all_guilds c ++ extract_guilds_from_page soup).
Proof.
  unfold crawl_step.
  destruct (fetch_page _ _) as [soup|]; [|intros [= <-]; eauto].
  destruct (has_progress soup) eqn:Hp; [done|].
  intros [= <-]. split; [done|]. right. eauto.
Qed.

Lemma well_referred_next (c c' : Crawl) :
  well_referred tier c → next c c' → well_referred tier c'.
Proof.
  intros [Hpage _] (soup & _ & _ & ->)%crawl_step_inl.
  split; cbn; [lia|]. by rewrite decide_True by lia; f_equal; lia.
Qed.

(** The stored offset stays below the page being fetched. *)
Lemma offset_below_next (c c' : Crawl) :
  offset_below (stored_offset (progress c) tier) (page c) →
  next c c' →
  stored_offset (progress c') tier = Some (page c) ∧
  offset_below (stored_offset (progress c') tier) (page c').
Proof.
  intros Hbelow (soup & _ & _ & ->)%crawl_step_inl.
  unfold stored_offset. cbn. rewrite lookup_insert_eq. cbn.
  split; [done|]. intros x [= <-]. lia.
Qed.

Lemma offset_below_reachable (c c' : Crawl) :
  offset_below (stored_offset (progress c) tier) (page c) →
  rtc next c c' →
  offset_below (stored_offset (progress c') tier) (page c').
Proof.
  intros Hbelow Hrtc. induction Hrtc as [|c c1 c2 Hstep _ IH]; [done|].
  apply IH. by eapply offset_below_next.
Qed.

Lemma offset_below_start (tier_progress progress_file : gmap string ProgressEntry) :
  progress_file !! pretty tier = tier_progress !! pretty tier →
  offset_below (stored_offset progress_file tier) (start_page_of tier_progress tier).
Proof.
  unfold offset_below, stored_offset, start_page_of. intros ->.
  destruct (tier_progress !! pretty tier); intros x [= <-]. lia.
Qed.

(** A finished run has gone through the iterations one by one. *)
Lemma crawl_loop_trace (fuel : nat) (c : Crawl)
    (result : list Guild * gmap string ProgressEntry) :
  loop fuel tier c = Some result →
  ∃ c_last, rtc next c c_last ∧ step c_last = inr result.
Proof.
  revert c. induction fuel as [|fuel IH]; intros c; [done|].
  cbn [crawl_loop]. destruct (step c) as [c'|r] eqn:Hstep.
  - intros (c_last & Hrtc & Hlast)%IH. exists c_last. split; [|done].
    by eapply rtc_l.
  - intros [= <-]. exists c. by split.
Qed.

(** A crawl writes under the key of its tier only. *)
Lemma crawl_loop_other_tiers (fuel : nat) (c : Crawl)
    (result : list Guild * gmap string ProgressEntry) (key : string) :
  loop fuel tier c = Some result →
  key ≠ pretty tier →
  result.2 !! key = progress c !! key.
Proof.
  intros (c_last & Hrtc & Hlast)%crawl_loop_trace Hkey.
  apply crawl_step_inr in Hlast as [-> _].
  induction Hrtc as [|c c1 c2 Hstep _ IH]; [done|]. rewrite IH.
  apply crawl_step_inl in Hstep as (soup & _ & _ & ->). cbn.
  by rewrite lookup_insert_ne.
Qed.

(** C9. In a crawl of a tier started where the Orchestrator starts it
    (behind the offset stored for the tier, or at the first page), an
    iteration writes a checkpoint only when its fetch has succeeded (and
    the oracle said "continue"); the offset it stores is the one of that
    page, above the offset stored before; an iteration that stops, on a
    failed fetch or at the end of the tier, writes nothing. *)
Theorem checkpoint_after_fetch_increasing
    (tier_progress progress_file : gmap string ProgressEntry) (c : Crawl) :
  progress_file !! pretty tier = tier_progress !! pretty tier →
  rtc next (mkCrawl (start_page_of tier_progress tier) [] None progress_file) c →
  offset_below (stored_offset (progress c) tier) (page c) ∧
  (∀ c', step c = inl c' →
     (∃ soup,
        fetch_page (rating_url tier (page c))
          (Some (referer_for tier (page c) (prev_url c))) = Some soup ∧
        has_progress soup = true) ∧
     stored_offset (progress c') tier = Some (page c) ∧
     page c' = page c + 1) ∧
  (∀ result, step c = inr result → result.2 = progress c).
Proof.
  intros Hsame Hrtc.
  assert (Hbelow : offset_below (stored_offset (progress c) tier) (page c)).
  { eapply offset_below_reachable; [|done]. by apply offset_below_start. }
  split; [done|]. split.
  - intros c' Hstep.
    destruct (offset_below_next c c' Hbelow Hstep) as [Hstored _].
    apply crawl_step_inl in Hstep as (soup & Hfetch & Hp & ->). eauto.
  - intros result Hstep. by apply crawl_step_inr in Hstep as [? _].
Qed.

End Crawler.

Lemma checkpoint_after_fetch_increasing_witness :
  let c := mkCrawl (-1) [] None ∅ in
  offset_below (stored_offset (progress c) 35) (page c) ∧
  ∃ c', crawl_step Example.site has_mythic_progress 35 c = inl c' ∧
        stored_offset (progress c') 35 = Some (-1) ∧ page c' = 0.
Proof.
  intros c.
  destruct (checkpoint_after_fetch_increasing Example.site has_mythic_progress 35 ∅ ∅ c)
    as (Hbelow & Hwrite & _); [reflexivity|apply rtc_refl|].
  split; [done|]. eexists. split; [reflexivity|].
  eapply Hwrite. reflexivity.
Defined.

(** ** Runs of the Tier Crawler *)

Section Runs.

Variable fetch_page : string → option string → option Soup.
Variable has_progress : Soup → bool.
Variable tier : Z.

Local Abbreviation run := (crawl_loop fetch_page has_progress).

Lemma well_referred_request (c : Crawl) :
  well_referred tier c →
  fetch_page (rating_url tier (page c))
    (Some (referer_for tier (page c) (prev_url c)))
  = request fetch_page tier (page c).
Proof. intros [_ Href]. unfold request. by rewrite Href. Qed.

Lemma pages_guilds_S (start : Z) (n : nat) :
  pages_guilds fetch_page tier start (S n)
  = match request fetch_page tier start with
    | Some soup => extract_guilds_from_page soup
    | None => []
    end ++ pages_guilds fetch_page tier (start + 1) n.
Proof.
  unfold pages_guilds. cbn [seq flat_map].
  rewrite Z.add_0_r. f_equal.
  rewrite <- seq_shift, flat_map_concat_map, map_map, <- flat_map_concat_map.
  apply flat_map_ext. intros i. by replace (start + 1 + Z.of_nat i)
    with (start + Z.of_nat (S i)) by lia.
Qed.

(** While the pages are fetched and the oracle says "continue", the loop
    goes from page to page, gathering the records and checkpointing the
    page it leaves. *)
Lemma crawl_pages (n : nat) (c : Crawl) :
  well_referred tier c →
  (∀ i : nat, (i < n)%nat →
     continues fetch_page has_progress tier (page c + Z.of_nat i)) →
  ∃ c_n,
    page c_n = page c + Z.of_nat n ∧
    all_guilds c_n = all_guilds c ++ pages_guilds fetch_page tier (page c) n ∧
    well_referred tier c_n ∧
    (n = 0%nat → progress c_n = progress c) ∧
    ((0 < n)%nat →
       stored_offset (progress c_n) tier = Some (page c + Z.of_nat n - 1)) ∧
    (∀ key, key ≠ pretty tier → progress c_n !! key = progress c !! key) ∧
    rtc (crawl_next fetch_page has_progress tier) c c_n ∧
    ∀ fuel, run (n + fuel) tier c = run fuel tier c_n.
Proof.
  revert c. induction n as [|n IH]; intros c Hc Hpages.
  - exists c. rewrite Z.add_0_r. cbn. rewrite app_nil_r.
    split_and!; [done..|lia|done|done|done].
  - destruct (Hpages 0%nat ltac:(lia)) as (soup & Hfetch & Hgo).
    rewrite Z.add_0_r in Hfetch.
    assert (Hstep : crawl_step fetch_page has_progress tier c
                    = inl (mkCrawl (page c + 1)
                             (all_guilds c ++ extract_guilds_from_page soup)
                             (Some (rating_url tier (page c)))
                             (<[pretty tier :=
                                  mkProgress (page c)
                                    (length (all_guilds c ++ extract_guilds_from_page soup))]>
                                (progress c)))).
    { unfold crawl_step. rewrite (well_referred_request c Hc), Hfetch, Hgo. done. }
    set (c1 := mkCrawl _ _ _ _) in Hstep.
    destruct (IH c1) as (c_n & Hpage & Hall & Href & Hzero & Hlast & Hother & Hrtc & Hrun).
    { by eapply well_referred_next. }
    { intros i Hi. cbn. replace (page c + 1 + Z.of_nat i)
        with (page c + Z.of_nat (S i)) by lia. apply Hpages. lia. }
    exists c_n. split_and!; [| |done|done| | | |].
    + rewrite Hpage. cbn. lia.
    + rewrite Hall, pages_guilds_S, Hfetch. cbn. by rewrite <- app_assoc.
    + intros _. destruct n as [|n].
      * rewrite Hzero by done. unfold stored_offset. cbn.
        rewrite lookup_insert_eq. cbn. f_equal. lia.
      * rewrite Hlast by lia. f_equal. cbn. lia.
    + intros key Hkey. rewrite Hother by done. cbn. by rewrite lookup_insert_ne.
    + by eapply rtc_l.
    + intros fuel. cbn [Nat.add crawl_loop]. rewrite Hstep. apply Hrun.
Qed.

(** A failed fetch ends the run with what has been gathered. *)
Lemma crawl_fails (fuel : nat) (c : Crawl) :
  well_referred tier c →
  request fetch_page tier (page c) = None →
  run (S fuel) tier c = Some (all_guilds c, progress c).
Proof.
  intros Hc Hfail. cbn [crawl_loop]. unfold crawl_step.
  by rewrite (well_referred_request c Hc), Hfail.
Qed.

(** The records a run adds do not depend on the records it starts with,
    nor on the progress file. *)
Lemma crawl_loop_from (fuel : nat) (c d : Crawl) (gathered : list Guild)
    (progress_file : gmap string ProgressEntry) :
  page d = page c →
  referer_for tier (page d) (prev_url d) = referer_for tier (page c) (prev_url c) →
  run fuel tier c = Some (gathered, progress_file) →
  ∃ added progress_file',
    gathered = all_guilds c ++ added ∧
    run fuel tier d = Some (all_guilds d ++ added, progress_file').
Proof.
  revert c d gathered progress_file.
  induction fuel as [|fuel IH]; intros c d gathered progress_file Hpage Href; [done|].
  cbn [crawl_loop]. unfold crawl_step. rewrite Hpage in Href |- *. rewrite Href.
  destruct (fetch_page _ _) as [soup|].
  - destruct (has_progress soup); cbn [negb].
    + intros Hrun.
      eapply (IH _ (mkCrawl (page c + 1)
                      (all_guilds d ++ extract_guilds_from_page soup)
                      (Some (rating_url tier (page c)))
                      (<[pretty tier :=
                           mkProgress (page c)
                             (length (all_guilds d ++ extract_guilds_from_page soup))]>
                         (progress d))))
        in Hrun as (added & pf & -> & Hd); [|done|done].
      cbn [all_guilds] in *. exists (extract_guilds_from_page soup ++ added), pf.
      split; [by rewrite app_assoc|]. by rewrite app_assoc.
    + intros [= <- <-]. eauto.
  - intros [= <- <-]. exists [], (progress d). by rewrite !app_nil_r.
Qed.

End Runs.

(** ** Resumption *)

Lemma pages_guilds_ext (fetch1 fetch2 : string → option string → option Soup)
    (tier start : Z) (n : nat) :
  (∀ i : nat, (i < n)%nat →
     request fetch1 tier (start + Z.of_nat i) = request fetch2 tier (start + Z.of_nat i)) →
  pages_guilds fetch1 tier start n = pages_guilds fetch2 tier start n.
Proof.
  revert start. induction n as [|n IH]; intros start Hsame; [done|].
  rewrite !pages_guilds_S. f_equal.
  - specialize (Hsame 0%nat ltac:(lia)). rewrite Z.add_0_r in Hsame. by rewrite Hsame.
  - apply IH. intros i Hi. replace (start + 1 + Z.of_nat i)
      with (start + Z.of_nat (S i)) by lia. apply Hsame. lia.
Qed.

Lemma start_page_of_stored (progress_file : gmap string ProgressEntry) (tier offset : Z) :
  stored_offset progress_file tier = Some offset →
  start_page_of progress_file tier = offset + 1.
Proof.
  unfold stored_offset, start_page_of.
  destruct (progress_file !! pretty tier); by intros [= <-].
Qed.

(** C2, as the code has it. A crawl from the top that fails at page [k]
    returns the records of the pages before [k] and leaves a progress file
    from which the Orchestrator resumes at [k]; the resumed crawl returns
    the records of the pages from [k] on, and the records of the
    interrupted crawl followed by those of the resumed crawl are the
    records of an uninterrupted crawl of the same pages. *)
Theorem resume_appends_to_interrupted_run
    (fetch_page fetch_failing : string → option string → option Soup)
    (has_progress : Soup → bool) (tier k : Z)
    (progress0 : gmap string ProgressEntry) :
  -1 ≤ k →
  progress0 !! pretty tier = None →
  (∀ p, -1 ≤ p < k → continues fetch_page has_progress tier p) →
  (∀ p, -1 ≤ p < k → request fetch_failing tier p = request fetch_page tier p) →
  request fetch_failing tier k = None →
  ∃ partial progress1,
    (∀ fuel, (Z.to_nat (k + 1) < fuel)%nat →
       scrape_tier_guilds fetch_failing has_progress fuel tier (-1) progress0
         = Some (partial, progress1)) ∧
    partial = pages_guilds fetch_page tier (-1) (Z.to_nat (k + 1)) ∧
    start_page_of progress1 tier = k ∧
    ∀ fuel resumed progress2,
      scrape_tier_guilds fetch_page has_progress fuel tier
        (start_page_of progress1 tier) progress1 = Some (resumed, progress2) →
      ∃ progress3,
        scrape_tier_guilds fetch_page has_progress (Z.to_nat (k + 1) + fuel) tier
          (-1) progress0 = Some (partial ++ resumed, progress3).
Proof.
  intros Hk Hfresh Hgo Hsame Hfail.
  set (n := Z.to_nat (k + 1)).
  set (c0 := mkCrawl (-1) [] None progress0).
  assert (Hc0 : well_referred tier c0) by by apply well_referred_start.
  destruct (crawl_pages fetch_failing has_progress tier n c0 Hc0)
    as (c_n & Hpage & Hall & Href & Hzero & Hlast & _ & _ & Hrun).
  { intros i Hi. cbn. destruct (Hgo (-1 + Z.of_nat i)) as (soup & Hreq & Hp); [lia|].
    exists soup. split; [|done]. rewrite Hsame by lia. done. }
  assert (Hpartial : all_guilds c_n = pages_guilds fetch_page tier (-1) n).
  { rewrite Hall. cbn. apply pages_guilds_ext. intros i Hi. apply Hsame. lia. }
  assert (Hstart : start_page_of (progress c_n) tier = k).
  { destruct n as [|n'] eqn:Hn.
    - rewrite Hzero by done. unfold start_page_of. cbn. rewrite Hfresh. lia.
    - rewrite (start_page_of_stored _ _ _ (Hlast ltac:(lia))). cbn. lia. }
  exists (all_guilds c_n), (progress c_n). split_and!; [|done|done|].
  - intros fuel Hfuel. unfold scrape_tier_guilds. fold c0.
    replace fuel with (n + S (fuel - n - 1))%nat by lia. rewrite Hrun.
    apply crawl_fails; [done|]. rewrite Hpage. cbn.
    by replace (-1 + Z.of_nat n) with k by lia.
  - intros fuel resumed progress2. rewrite Hstart. unfold scrape_tier_guilds.
    intros Hresumed. fold c0.
    destruct (crawl_pages fetch_page has_progress tier n c0 Hc0)
      as (d_n & Hpage' & Hall' & Href' & _ & _ & _ & _ & Hrun').
    { intros i Hi. cbn. apply Hgo. lia. }
    rewrite Hrun'.
    assert (Hkn : -1 + Z.of_nat n = k) by lia.
    eapply (crawl_loop_from _ _ _ _ _ d_n) in Hresumed as (added & pf & Hres & Hd).
    + cbn in Hres. subst added. exists pf. rewrite Hd. do 2 f_equal.
      rewrite Hpartial, Hall'. done.
    + cbn. rewrite Hpage'. cbn. done.
    + destruct Href' as [_ ->]. rewrite Hpage'. cbn. by rewrite Hkn.
Qed.

Lemma resume_appends_to_interrupted_run_witness :
  ∃ partial progress1,
    scrape_tier_guilds Example.site_failing has_mythic_progress 2 35 (-1) ∅
      = Some (partial, progress1) ∧
    partial = [Example.alpha] ∧
    start_page_of progress1 35 = 0 ∧
    ∃ progress3,
      scrape_tier_guilds Example.site has_mythic_progress 2 35 (-1) ∅
        = Some (partial ++ [Example.beta], progress3).
Proof.
  destruct (resume_appends_to_interrupted_run
              Example.site Example.site_failing has_mythic_progress 35 0 ∅)
    as (partial & progress1 & Hrun & Hpartial & Hstart & Hresume).
  - lia.
  - reflexivity.
  - intros p Hp. assert (p = -1) as -> by lia.
    exists Example.first_page. split; reflexivity.
  - intros p Hp. assert (p = -1) as -> by lia. reflexivity.
  - reflexivity.
  - exists partial, progress1. split_and!.
    + apply Hrun. cbn. lia.
    + rewrite Hpartial. reflexivity.
    + exact Hstart.
    + apply (Hresume 1%nat [Example.beta] progress1).
      rewrite Hstart. reflexivity.
Defined.

(** C2, as the specification states it, fails: on the example site, with
    page 0 of tier 35 failing in the first crawl, the crawl resumed at the
    saved offset plus one returns the guild of page 0 alone, and the
    uninterrupted crawl returns the guilds of both pages. *)
Lemma resumed_run_lacks_earlier_pages :
  ¬ resumption_reproduces Example.site Example.site_failing has_mythic_progress 5 35.
Proof.
  intros Hclaim.
  set (saved := {[ "35" := mkProgress (-1) 1 ]} : gmap string ProgressEntry).
  assert (Hin : Example.alpha ∈ [Example.beta]).
  { apply (Hclaim [Example.alpha] saved (-1) [Example.beta] saved
             [Example.alpha; Example.beta] saved);
      [reflexivity..|]. apply list_elem_of_here. }
  apply list_elem_of_singleton in Hin. discriminate Hin.
Qed.

(** ** Orchestrator: a tier whose crawl is cut short *)

Lemma tier_step_completed
    (fetch_page : string → option string → option Soup) (has_progress : Soup → bool)
    (fuel : nat) (tier_progress : gmap string ProgressEntry) (m : Main) (tier : Z)
    (stored : list Guild) :
  all_guilds_data m !! pretty tier = Some (mkTierData true stored) →
  tier_step fetch_page has_progress fuel tier_progress m tier
    = Some (mkMain (disk m) (all_guilds_data m) (add_unique (unique_guilds m) stored)).
Proof.
  intros Hstored. unfold tier_step, already_completed. by rewrite Hstored.
Qed.

(** C1, as the code has it. When the fetch of a page fails while a tier is
    crawled, the Tier Crawler stops the tier and returns the records
    gathered so far, without a checkpoint for the failed page; the
    Orchestrator stores the tier as completed with these records and goes
    on with the next tier; whenever the tier is visited again its stored
    records are loaded and nothing is fetched. *)
Theorem failed_fetch_ends_tier_as_completed
    (fetch_page : string → option string → option Soup) (has_progress : Soup → bool)
    (fuel : nat) (tier_progress : gmap string ProgressEntry) (m : Main) (tier : Z)
    (n : nat) :
  let start_page := start_page_of tier_progress tier in
  let partial := pages_guilds fetch_page tier start_page n in
  -1 ≤ start_page →
  already_completed (all_guilds_data m) tier = false →
  (∀ i : nat, (i < n)%nat →
     continues fetch_page has_progress tier (start_page + Z.of_nat i)) →
  request fetch_page tier (start_page + Z.of_nat n) = None →
  (n < fuel)%nat →
  ∃ m',
    scrape_tier_guilds fetch_page has_progress fuel tier start_page
      (tier_progress_file (disk m))
      = Some (partial, tier_progress_file (disk m')) ∧
    tier_step fetch_page has_progress fuel tier_progress m tier = Some m' ∧
    all_guilds_data m' !! pretty tier = Some (mkTierData true partial) ∧
    guilds_with_mythic_file (disk m') = all_guilds_data m' ∧
    (n = 0%nat → tier_progress_file (disk m') = tier_progress_file (disk m)) ∧
    ((0 < n)%nat →
       stored_offset (tier_progress_file (disk m')) tier
         = Some (start_page + Z.of_nat n - 1)) ∧
    unique_guilds m' = add_unique (unique_guilds m) partial ∧
    (∀ rest,
       tiers_loop fetch_page has_progress fuel tier_progress m (tier :: rest)
         = tiers_loop fetch_page has_progress fuel tier_progress m' rest) ∧
    (∀ fetch_page' has_progress' fuel' tier_progress',
       tier_step fetch_page' has_progress' fuel' tier_progress' m' tier
         = Some (mkMain (disk m') (all_guilds_data m')
                   (add_unique (unique_guilds m') partial))).
Proof.
  intros start_page partial Hstart Hopen Hgo Hfail Hfuel.
  set (c0 := mkCrawl start_page [] None (tier_progress_file (disk m))).
  destruct (crawl_pages fetch_page has_progress tier n c0)
    as (c_n & Hpage & Hall & Href & Hzero & Hlast & _ & _ & Hrun).
  { by apply well_referred_start. }
  { done. }
  assert (Hscrape : scrape_tier_guilds fetch_page has_progress fuel tier start_page
                      (tier_progress_file (disk m))
                    = Some (partial, progress c_n)).
  { unfold scrape_tier_guilds. fold c0.
    replace fuel with (n + S (fuel - n - 1))%nat by lia. rewrite Hrun.
    rewrite crawl_fails; [by rewrite Hall|done|by rewrite Hpage]. }
  assert (Hstep : tier_step fetch_page has_progress fuel tier_progress m tier
                  = Some (mkMain
                            (mkFiles (progress c_n)
                               (<[pretty tier := mkTierData true partial]> (all_guilds_data m))
                               (final_guilds_file (disk m)))
                            (<[pretty tier := mkTierData true partial]> (all_guilds_data m))
                            (add_unique (unique_guilds m) partial))).
  { unfold tier_step. rewrite Hopen. fold start_page. by rewrite Hscrape. }
  eexists. split_and!; [|exact Hstep|..]; cbn.
  - done.
  - apply lookup_insert_eq.
  - done.
  - done.
  - done.
  - done.
  - intros rest. unfold tiers_loop. cbn [foldl mbind option_bind]. by rewrite Hstep.
  - intros. apply tier_step_completed. cbn. apply lookup_insert_eq.
Qed.

Lemma failed_fetch_ends_tier_as_completed_witness :
  ∃ m',
    tier_step Example.site_failing has_mythic_progress 2 ∅
      (mkMain Example.no_files ∅ []) 35 = Some m' ∧
    all_guilds_data m' !! "35" = Some (mkTierData true [Example.alpha]) ∧
    stored_offset (tier_progress_file (disk m')) 35 = Some (-1).
Proof.
  destruct (failed_fetch_ends_tier_as_completed
              Example.site_failing has_mythic_progress 2 ∅
              (mkMain Example.no_files ∅ []) 35 1)
    as (m' & _ & Hstep & Hdata & _ & _ & Hoffset & _).
  - by vm_compute.
  - reflexivity.
  - intros i Hi. assert (i = 0%nat) as -> by lia.
    exists Example.first_page. split; reflexivity.
  - reflexivity.
  - lia.
  - exists m'. split_and!; [exact Hstep|exact Hdata|]. apply Hoffset. lia.
Defined.

(** C1, as the specification states it, fails: on the example site with
    page 0 of tier 35 failing, the run leaves tier 35 in the tier-records
    file as completed, with the guild of the first page only; the progress
    file names the page before the failed one, but a later run, on the site
    with every page back, loads the stored records and does not fetch the
    missing page. *)
Lemma failed_tier_is_marked_completed :
  request Example.site_failing 35 0 = None ∧
  ∃ files,
    fst <$> main Example.site_failing has_mythic_progress 5 Example.no_files
      = Some files ∧
    ¬ (already_completed (guilds_with_mythic_file files) 35 = false) ∧
    guilds_with_mythic_file files !! "35" = Some (mkTierData true [Example.alpha]) ∧
    stored_offset (tier_progress_file files) 35 = Some (-1) ∧
    ∃ files',
      fst <$> main Example.site has_mythic_progress 5 files = Some files' ∧
      guilds_with_mythic_file files' !! "35" = Some (mkTierData true [Example.alpha]).
Proof.
  split; [reflexivity|].
  eexists. split; [vm_compute; reflexivity|].
  split_and!; [by vm_compute|by vm_compute|by vm_compute|].
  eexists. split; [vm_compute; reflexivity|]. by vm_compute.
Qed.

(** ** Orchestrator: order of the tiers and merge *)

Lemma odict_get_set_eq {V} (k : string) (v : V) (d : ODict.t V) :
  ODict.get k (ODict.set k v d) = Some v.
Proof.
  induction d as [|[k' v'] d IH]; cbn.
  - by rewrite String.eqb_refl.
  - destruct (String.eqb k k') eqn:Hk; cbn; by rewrite Hk.
Qed.

Lemma odict_get_set_ne {V} (k k' : string) (v : V) (d : ODict.t V) :
  k ≠ k' → ODict.get k (ODict.set k' v d) = ODict.get k d.
Proof.
  intros Hne. induction d as [|[k0 v0] d IH]; cbn.
  - by apply String.eqb_neq in Hne as ->.
  - destruct (String.eqb k' k0) eqn:Hk; cbn; [|by rewrite IH].
    apply String.eqb_eq in Hk as <-. by apply String.eqb_neq in Hne as ->.
Qed.

Lemma add_unique_app (d : ODict.t Guild) (l1 l2 : list Guild) :
  add_unique d (l1 ++ l2) = add_unique (add_unique d l1) l2.
Proof. apply foldl_app. Qed.

(** In the merged map a key holds the last record merged under it. *)
Lemma get_add_unique (key : string) (d : ODict.t Guild) (merged : list Guild) :
  ODict.get key (add_unique d merged)
  = match last_with_key key merged with
    | Some guild => Some guild
    | None => ODict.get key d
    end.
Proof.
  revert d. induction merged as [|guild merged IH]; intros d; [done|].
  change (add_unique d (guild :: merged))
    with (add_unique (ODict.set (unique_key guild) guild d) merged).
  rewrite IH. unfold last_with_key. cbn [List.filter].
  destruct (String.eqb (unique_key guild) key) eqn:Hk.
  - apply String.eqb_eq in Hk as <-. rewrite last_cons.
    destruct (last _); [done|]. apply odict_get_set_eq.
  - destruct (last _); [done|]. apply odict_get_set_ne.
    apply String.eqb_neq in Hk. congruence.
Qed.

Section Tiers.

Variable fetch_page : string → option string → option Soup.
Variable has_progress : Soup → bool.
Variable fuel : nat.
Variable tier_progress : gmap string ProgressEntry.

Local Abbreviation visit := (tier_step fetch_page has_progress fuel tier_progress).
Local Abbreviation visit_all := (tiers_loop fetch_page has_progress fuel tier_progress).

Lemma tiers_loop_cons (m : Main) (tier : Z) (rest : list Z) :
  visit_all m (tier :: rest) = visit m tier ≫= λ m1, visit_all m1 rest.
Proof.
  unfold tiers_loop. cbn [foldl mbind option_bind].
  destruct (visit m tier) as [m1|]; [done|].
  induction rest as [|t rest IH]; [done|]. apply IH.
Qed.

(** A visit merges the records the tier then has in the tier-records map,
    and leaves the other tiers of that map alone. *)
Lemma tier_step_merge (m m' : Main) (tier : Z) :
  visit m tier = Some m' →
  unique_guilds m'
    = add_unique (unique_guilds m) (stored_guilds (all_guilds_data m') tier) ∧
  ∀ key, key ≠ pretty tier → all_guilds_data m' !! key = all_guilds_data m !! key.
Proof.
  unfold tier_step. destruct (already_completed _ _).
  - intros [= <-]. done.
  - destruct (scrape_tier_guilds _ _ _ _ _ _) as [[gathered pf]|]; [|done].
    intros [= <-]. cbn. split.
    + unfold stored_guilds. by rewrite lookup_insert_eq.
    + intros key Hkey. by rewrite lookup_insert_ne.
Qed.

Lemma tiers_loop_merge (tiers : list Z) (m m' : Main) :
  NoDup tiers →
  visit_all m tiers = Some m' →
  unique_guilds m'
    = add_unique (unique_guilds m)
        (flat_map (stored_guilds (all_guilds_data m')) tiers) ∧
  ∀ key, (∀ tier, tier ∈ tiers → key ≠ pretty tier) →
         all_guilds_data m' !! key = all_guilds_data m !! key.
Proof.
  revert m. induction tiers as [|tier rest IH]; intros m Hnodup.
  - by intros [= <-].
  - rewrite tiers_loop_cons. apply NoDup_cons in Hnodup as [Hfresh Hnodup].
    destruct (visit m tier) as [m1|] eqn:Hvisit; [|done]. cbn.
    intros Hrest. destruct (IH m1 Hnodup Hrest) as [Hunique Hother].
    apply tier_step_merge in Hvisit as [Hmerged Hkept]. split.
    + cbn [flat_map]. rewrite add_unique_app, Hunique, Hmerged.
      do 2 f_equal. unfold stored_guilds. rewrite Hother; [done|].
      intros tier' Hin Heq. apply (inj pretty) in Heq as <-. done.
    + intros key Hkey. rewrite Hother, Hkept; [done| |].
      * apply Hkey. left.
      * intros tier' Hin. apply Hkey. by right.
Qed.

(** A visit leaves the progress of the other tiers alone, so that the
    progress loaded at start-up is still the one on disk for a tier that
    has not been visited. *)
Lemma tier_step_progress (m m' : Main) (tier : Z) (key : string) :
  visit m tier = Some m' →
  key ≠ pretty tier →
  tier_progress_file (disk m') !! key = tier_progress_file (disk m) !! key.
Proof.
  unfold tier_step. destruct (already_completed _ _).
  - by intros [= <-].
  - destruct (scrape_tier_guilds _ _ _ _ _ _) as [[gathered pf]|] eqn:Hrun; [|done].
    intros [= <-] Hkey. cbn.
    by apply (crawl_loop_other_tiers _ _ _ _ _ _ _ Hrun).
Qed.

Lemma tiers_loop_progress (tiers : list Z) (m m' : Main) (key : string) :
  visit_all m tiers = Some m' →
  (∀ tier, tier ∈ tiers → key ≠ pretty tier) →
  tier_progress_file (disk m') !! key = tier_progress_file (disk m) !! key.
Proof.
  revert m. induction tiers as [|tier rest IH]; intros m.
  - by intros [= <-].
  - rewrite tiers_loop_cons.
    destruct (visit m tier) as [m1|] eqn:Hvisit; [|done]. cbn.
    intros Hrest Hkey. rewrite (IH m1 Hrest).
    + apply (tier_step_progress _ _ _ _ Hvisit). apply Hkey. left.
    + intros tier' Hin. apply Hkey. by right.
Qed.

End Tiers.



(** ** Combine tool *)

Lemma odict_mem_get {V} (k : string) (d : ODict.t V) :
  ODict.mem k d = bool_decide (is_Some (ODict.get k d)).
Proof.
  induction d as [|[k' v] d IH]; cbn; [done|].
  by destruct (String.eqb k k').
Qed.

Lemma odict_mem_keys {V} (k : string) (d : ODict.t V) :
  ODict.mem k d = false → k ∉ ODict.keys d.
Proof.
  induction d as [|[k' v] d IH]; cbn; [intros _; apply not_elem_of_nil|].
  intros [Hk Hd]%orb_false_elim. apply String.eqb_neq in Hk.
  apply not_elem_of_cons. split; [done|]. by apply IH.
Qed.

(** Assigning to an absent key appends it. *)
Lemma odict_set_absent {V} (k : string) (v : V) (d : ODict.t V) :
  ODict.mem k d = false → ODict.set k v d = d ++ [(k, v)].
Proof.
  induction d as [|[k' v'] d IH]; cbn; [done|].
  intros [-> Hd]%orb_false_elim. by rewrite IH.
Qed.

Lemma keyed_add_first (d : ODict.t FinalGuild) (guild : FinalGuild) :
  keyed d → keyed (Combine.add_first d guild).
Proof.
  intros [Hnodup Hkeys]. unfold Combine.add_first.
  destruct (ODict.mem _ d) eqn:Hmem; [done|].
  rewrite (odict_set_absent _ _ _ Hmem). split.
  - unfold ODict.keys. rewrite fmap_app. apply NoDup_app. split_and!; [done| |].
    + intros k Hk ->%list_elem_of_singleton. by apply odict_mem_keys in Hmem.
    + apply NoDup_singleton.
  - apply Forall_app. split; [done|]. by constructor.
Qed.

Lemma keyed_unique_from (d : ODict.t FinalGuild) (guilds : list FinalGuild) :
  keyed d → keyed (foldl Combine.add_first d guilds).
Proof.
  revert d. induction guilds as [|guild guilds IH]; intros d Hd; [done|].
  cbn. by apply IH, keyed_add_first.
Qed.

(** The first occurrence of a key stays. *)
Lemma get_unique_from (key : string) (d : ODict.t FinalGuild)
    (guilds : list FinalGuild) :
  keyed d →
  ODict.get key (foldl Combine.add_first d guilds)
  = match ODict.get key d with
    | Some guild => Some guild
    | None => first_with_key key guilds
    end.
Proof.
  revert d. induction guilds as [|guild guilds IH]; intros d Hd.
  - cbn. by destruct (ODict.get key d).
  - cbn [foldl]. rewrite IH by by apply keyed_add_first.
    unfold Combine.add_first. rewrite odict_mem_get.
    unfold first_with_key. cbn [find].
    destruct (String.eqb (Combine.key guild) key) eqn:Hk.
    + apply String.eqb_eq in Hk as <-.
      destruct (ODict.get (Combine.key guild) d) as [g|] eqn:Hget.
      * rewrite bool_decide_true by eauto. by rewrite Hget.
      * rewrite bool_decide_false by by intros [? [=]].
        by rewrite odict_get_set_eq.
    + apply String.eqb_neq in Hk.
      destruct (bool_decide _); [done|].
      rewrite odict_get_set_ne by congruence. done.
Qed.

(** The values under a key: the one it holds, if it holds one. *)
Lemma all_with_key_values (key : string) (d : ODict.t FinalGuild) :
  keyed d →
  all_with_key key (ODict.values d)
  = match ODict.get key d with Some guild => [guild] | None => [] end.
Proof.
  intros [Hnodup Hkeys]. induction d as [|[k g] d IH]; [done|].
  apply NoDup_cons in Hnodup as [Hfresh Hnodup].
  apply Forall_cons in Hkeys as [Hk Hkeys]. cbn in Hk. subst k.
  specialize (IH Hnodup Hkeys).
  unfold all_with_key in *. cbn [ODict.values fmap list_fmap snd List.filter ODict.get].
  fold (ODict.values d). rewrite (String.eqb_sym key).
  destruct (String.eqb (Combine.key g) key) eqn:Hkey; [|done].
  apply String.eqb_eq in Hkey as <-. rewrite IH.
  destruct (ODict.get (Combine.key g) d) as [g'|] eqn:Hget; [|done].
  exfalso. apply Hfresh. clear -Hget.
  induction d as [|[k' v'] d IH]; [done|]. cbn in *.
  destruct (String.eqb (Combine.key g) k') eqn:Hk.
  - apply String.eqb_eq in Hk as <-. left.
  - right. by apply IH.
Qed.

Lemma insert_sorted_perm (lower : string → string) (x : FinalGuild)
    (l : list FinalGuild) :
  Combine.insert_sorted lower x l ≡ₚ x :: l.
Proof.
  induction l as [|y l IH]; cbn; [done|].
  destruct (String.leb _ _); [done|]. rewrite IH. apply Permutation_swap.
Qed.

Lemma sort_by_name_perm (lower : string → string) (l : list FinalGuild) :
  Combine.sort_by_name lower l ≡ₚ l.
Proof.
  induction l as [|x l IH]; cbn; [done|].
  by rewrite insert_sorted_perm, IH.
Qed.

Lemma name_le_of_leb_false (lower : string → string) (x y : FinalGuild) :
  String.leb (Combine.sort_key lower x) (Combine.sort_key lower y) = false →
  name_le lower y x.
Proof.
  intros Hxy.
  destruct (total String.le (Combine.sort_key lower y) (Combine.sort_key lower x))
    as [H|H]; [done|].
  unfold String.le in H. rewrite Hxy in H. done.
Qed.

Lemma insert_sorted_sorted (lower : string → string) (x : FinalGuild)
    (l : list FinalGuild) :
  StronglySorted (name_le lower) l →
  StronglySorted (name_le lower) (Combine.insert_sorted lower x l).
Proof.
  induction 1 as [|y l Hsorted IH Hy]; cbn.
  - repeat constructor.
  - destruct (String.leb _ _) eqn:Hxy.
    + assert (Hle : name_le lower x y).
      { unfold name_le, String.le, Combine.sort_key in *. by rewrite Hxy. }
      constructor; [by constructor|]. constructor; [done|].
      eapply Forall_impl; [exact Hy|]. intros z Hz. unfold name_le in *.
      by etrans.
    + constructor; [done|]. rewrite insert_sorted_perm.
      constructor; [|done]. by apply name_le_of_leb_false.
Qed.

Lemma sort_by_name_sorted (lower : string → string) (l : list FinalGuild) :
  StronglySorted (name_le lower) (Combine.sort_by_name lower l).
Proof.
  induction l as [|x l IH]; cbn; [constructor|]. by apply insert_sorted_sorted.
Qed.

(** A stable sort: records with the same sort key keep their order. *)
Lemma insert_sorted_stable (lower : string → string) (p : FinalGuild → bool)
    (x : FinalGuild) (l : list FinalGuild) :
  (∀ y, p x = true → p y = true →
        Combine.sort_key lower x = Combine.sort_key lower y) →
  List.filter p (Combine.insert_sorted lower x l) = List.filter p (x :: l).
Proof.
  intros Hsame. induction l as [|y l IH]; [done|]. cbn [Combine.insert_sorted].
  destruct (String.leb _ _) eqn:Hxy; [done|].
  cbn [List.filter] in *. rewrite IH.
  destruct (p x) eqn:Hx, (p y) eqn:Hy; try done.
  rewrite (Hsame y eq_refl Hy) in Hxy.
  assert (String.le (Combine.sort_key lower y) (Combine.sort_key lower y))
    as Hrefl by done.
  unfold String.le in Hrefl. by rewrite Hxy in Hrefl.
Qed.

Lemma all_with_key_perm (key : string) (l l' : list FinalGuild) :
  l ≡ₚ l' → all_with_key key l ≡ₚ all_with_key key l'.
Proof.
  unfold all_with_key. induction 1 as [|x l l' _ IH|x y l|l1 l2 l3 _ IH1 _ IH2]; cbn.
  - done.
  - destruct (String.eqb _ _); by rewrite IH.
  - destruct (String.eqb (Combine.key x) key), (String.eqb (Combine.key y) key);
      try done. apply Permutation_swap.
  - by etrans.
Qed.

Lemma unique_from_length (d : ODict.t FinalGuild) (guilds : list FinalGuild) :
  (length (foldl Combine.add_first d guilds) ≤ length d + length guilds)%nat.
Proof.
  revert d. induction guilds as [|guild guilds IH]; intros d; cbn; [lia|].
  etrans; [apply IH|]. unfold Combine.add_first.
  destruct (ODict.mem _ d) eqn:Hmem; [lia|].
  rewrite (odict_set_absent _ _ _ Hmem), length_app. cbn. lia.
Qed.

Lemma first_with_key_app (key : string) (l1 l2 : list FinalGuild) :
  first_with_key key (l1 ++ l2)
  = match first_with_key key l1 with
    | Some kept => Some kept
    | None => first_with_key key l2
    end.
Proof.
  unfold first_with_key. induction l1 as [|g l1 IH]; [done|]. cbn.
  by destruct (String.eqb (Combine.key g) key).
Qed.

Lemma keyed_empty : keyed [].
Proof. split; constructor. Qed.

(** The records of the combined file under a key: the first of the input
    under that key, if it has one. *)
Lemma combined_with_key (lower : string → string)
    (guilds guilds_mythic : list FinalGuild) (key : string) :
  all_with_key key (Combine.combine_guild_files lower guilds guilds_mythic).1
  = match first_with_key key (guilds ++ guilds_mythic) with
    | Some kept => [kept]
    | None => []
    end.
Proof.
  cbn [Combine.combine_guild_files fst].
  set (input := guilds ++ guilds_mythic).
  set (d := Combine.unique_of input).
  assert (Hd : keyed d) by apply keyed_unique_from, keyed_empty.
  assert (Hget : ODict.get key d = first_with_key key input).
  { unfold d, Combine.unique_of. by rewrite get_unique_from by apply keyed_empty. }
  rewrite <- Hget.
  pose proof (all_with_key_perm key _ _
                (sort_by_name_perm lower (ODict.values d))) as Hp.
  rewrite (all_with_key_values key d Hd) in Hp.
  destruct (ODict.get key d).
  - by apply Permutation_singleton_r in Hp.
  - by apply Permutation_nil_r in Hp.
Qed.

Lemma first_with_key_elem (guild : FinalGuild) (input : list FinalGuild) :
  guild ∈ input → is_Some (first_with_key (Combine.key guild) input).
Proof.
  intros Hin.
  destruct (first_with_key (Combine.key guild) input) as [kept|] eqn:Hfirst;
    [done|].
  apply list_elem_of_In in Hin.
  apply (find_none _ _ Hfirst) in Hin. by rewrite String.eqb_refl in Hin.
Qed.

(** C6. In the combined file every key of the two input files has exactly
    one record, the first under that key in the first file followed by the
    second (so the record of the earlier file on a collision), and there is
    no other record; the file is sorted by the names as [str.lower] gives
    them, whatever [str.lower] does to a name; and the number of duplicates
    reported is the sum of the input counts less the output count. *)
Theorem combine_first_wins_sorted (lower : string → string)
    (guilds guilds_mythic : list FinalGuild) :
  let combined := (Combine.combine_guild_files lower guilds guilds_mythic).1 in
  let report := (Combine.combine_guild_files lower guilds guilds_mythic).2 in
  (∀ guild, guild ∈ guilds ++ guilds_mythic →
     ∃ kept,
       first_with_key (Combine.key guild) (guilds ++ guilds_mythic) = Some kept ∧
       all_with_key (Combine.key guild) combined = [kept]) ∧
  (∀ key, first_with_key key (guilds ++ guilds_mythic)
          = match first_with_key key guilds with
            | Some kept => Some kept
            | None => first_with_key key guilds_mythic
            end) ∧
  (∀ guild, guild ∈ combined → guild ∈ guilds ++ guilds_mythic) ∧
  StronglySorted (name_le lower) combined ∧
  Combine.total_unique report = length combined ∧
  Combine.duplicates_removed report
    = Z.of_nat (length guilds) + Z.of_nat (length guilds_mythic)
      - Z.of_nat (length combined) ∧
  0 ≤ Combine.duplicates_removed report.
Proof.
  intros combined report.
  pose proof (combined_with_key lower guilds guilds_mythic) as Hwith.
  fold combined in Hwith. cbn in combined, report.
  set (input := guilds ++ guilds_mythic) in *.
  split_and!.
  - intros guild Hin. rewrite Hwith.
    destruct (first_with_key_elem guild input Hin) as [kept ->]. by exists kept.
  - intros key. apply first_with_key_app.
  - intros guild Hin.
    assert (Hk : guild ∈ all_with_key (Combine.key guild) combined).
    { apply list_elem_of_In, filter_In. split; [by apply list_elem_of_In|].
      apply String.eqb_refl. }
    rewrite Hwith in Hk.
    destruct (first_with_key _ input) as [kept|] eqn:Hfirst;
      [|by apply elem_of_nil in Hk].
    apply list_elem_of_singleton in Hk as ->.
    apply find_some in Hfirst as [Hin' _]. by apply list_elem_of_In.
  - apply sort_by_name_sorted.
  - done.
  - done.
  - assert (Hlen : (length combined ≤ length guilds + length guilds_mythic)%nat).
    { unfold combined. rewrite (Permutation_length (sort_by_name_perm lower _)).
      unfold ODict.values. rewrite length_fmap.
      pose proof (unique_from_length [] input) as Hlen.
      unfold input in Hlen at 2. rewrite length_app in Hlen. exact Hlen. }
    unfold report, combined in *. cbn. lia.
Qed.

(** The example of the specification: the same name and realm in both
    files, with another casing of the region in the second. *)
Lemma combine_first_wins_sorted_witness :
  (Combine.combine_guild_files Py.lower Sample.first_file Sample.second_file).1
    = [mkFinal "alpaca" "Kazzak" "EU"; mkFinal "Alpha" "Kazzak" "EU";
       mkFinal "beta" "Tarren Mill" "EU"] ∧
  all_with_key "Alpha-Kazzak"
    (Combine.combine_guild_files Py.lower Sample.first_file Sample.second_file).1
    = [mkFinal "Alpha" "Kazzak" "EU"] ∧
  Combine.duplicates_removed
    (Combine.combine_guild_files Py.lower Sample.first_file Sample.second_file).2
    = 1.
Proof.
  destruct (combine_first_wins_sorted Py.lower Sample.first_file Sample.second_file)
    as (Hone & _ & _ & _ & _ & Hdup & _).
  split_and!.
  - reflexivity.
  - destruct (Hone (mkFinal "Alpha" "Kazzak" "eu")) as (kept & Hfirst & Hall).
    + apply list_elem_of_In. cbn. tauto.
    + vm_compute in Hfirst. injection Hfirst as <-. exact Hall.
  - rewrite Hdup. reflexivity.
Defined.

Lemma key_of_dashed (a b c region : string) :
  Combine.key (mkFinal (a +:+ "-" +:+ b) c region) = a +:+ "-" +:+ b +:+ "-" +:+ c.
Proof.
  unfold Combine.key. cbn [final_name final_realm].
  by rewrite !string_app_assoc.
Qed.

(** C10. The key of the combine tool is the name, a hyphen and the realm in
    one string.  So a name "a-b" on realm "c" and a name "a" on realm "b-c"
    have one key, whatever the texts a, b and c are, though name and realm
    both differ; and of all the records of the two files that share a key,
    wherever they stand and whether or not name and realm agree, the tool
    writes one, the first.  For "A-B" of "C" and "A" of "B-C" it writes the
    one that comes first, in one file or across the two, and beside it a
    record of another key. *)
Theorem combine_key_collision (lower : string → string) :
  (∀ guild, Combine.key guild = final_name guild +:+ "-" +:+ final_realm guild) ∧
  (∀ a b c region region',
     Combine.key (mkFinal (a +:+ "-" +:+ b) c region)
     = Combine.key (mkFinal a (b +:+ "-" +:+ c) region') ∧
     final_name (mkFinal (a +:+ "-" +:+ b) c region)
     ≠ final_name (mkFinal a (b +:+ "-" +:+ c) region') ∧
     final_realm (mkFinal (a +:+ "-" +:+ b) c region)
     ≠ final_realm (mkFinal a (b +:+ "-" +:+ c) region')) ∧
  (∀ guilds guilds_mythic guild other,
     guild ∈ guilds ++ guilds_mythic →
     other ∈ guilds ++ guilds_mythic →
     Combine.key guild = Combine.key other →
     let combined := (Combine.combine_guild_files lower guilds guilds_mythic).1 in
     ∃ kept,
       first_with_key (Combine.key guild) (guilds ++ guilds_mythic) = Some kept ∧
       List.filter (λ record, String.eqb (Combine.key record) (Combine.key guild)
                              || String.eqb (Combine.key record) (Combine.key other))
         combined = [kept]) ∧
  (final_name Sample.dashed_name, final_realm Sample.dashed_name)
    ≠ (final_name Sample.dashed_realm, final_realm Sample.dashed_realm) ∧
  (Combine.combine_guild_files lower [Sample.dashed_name] [Sample.dashed_realm]).1
    = [Sample.dashed_name] ∧
  Combine.duplicates_removed
    (Combine.combine_guild_files lower [Sample.dashed_name] [Sample.dashed_realm]).2
    = 1 ∧
  (Combine.combine_guild_files lower [Sample.dashed_realm] [Sample.dashed_name]).1
    = [Sample.dashed_realm] ∧
  (Combine.combine_guild_files lower [Sample.dashed_name; Sample.dashed_realm] []).1
    = [Sample.dashed_name] ∧
  (Combine.combine_guild_files lower [] [Sample.dashed_name; Sample.dashed_realm]).1
    = [Sample.dashed_name].
Proof.
  split_and!; try done.
  - intros a b c region region'. split_and!.
    + by rewrite key_of_dashed.
    + cbn. intros Heq. apply (f_equal String.length) in Heq.
      rewrite !string_app_length in Heq. cbn in Heq. lia.
    + cbn. intros Heq. apply (f_equal String.length) in Heq.
      rewrite !string_app_length in Heq. cbn in Heq. lia.
  - intros guilds guilds_mythic guild other Hguild Hother Hkey combined.
    destruct (first_with_key_elem guild _ Hguild) as [kept Hkept].
    exists kept. split; [done|].
    pose proof (combined_with_key lower guilds guilds_mythic (Combine.key guild))
      as Hwith.
    fold combined in Hwith. rewrite Hkept in Hwith. rewrite <- Hwith, <- Hkey.
    unfold all_with_key. apply filter_ext. intros record.
    by rewrite orb_diag.
Qed.

(** Two records of one key in the second file, behind a first file that
    holds neither: one of the two is written. *)
Lemma combine_key_collision_witness :
  List.filter
    (λ record, String.eqb (Combine.key record) (Combine.key Sample.dashed_realm)
               || String.eqb (Combine.key record) (Combine.key Sample.dashed_name))
    (Combine.combine_guild_files Py.lower
       [mkFinal "Zeta" "Kazzak" "EU"]
       [Sample.dashed_realm; Sample.dashed_name]).1
  = [Sample.dashed_realm].
Proof.
  destruct (combine_key_collision Py.lower) as (_ & _ & Hone & _).
  destruct (Hone [mkFinal "Zeta" "Kazzak" "EU"]
              [Sample.dashed_realm; Sample.dashed_name]
              Sample.dashed_realm Sample.dashed_name)
    as (kept & Hfirst & Hkept).
  - apply list_elem_of_In. cbn. tauto.
  - apply list_elem_of_In. cbn. tauto.
  - reflexivity.
  - vm_compute in Hfirst. injection Hfirst as <-. exact Hkept.
Defined.

(** * Further properties *)

(** ** Retries *)

Lemma first_page_here (post : nat → Transport.Response) (attempt retry_count : nat)
    (soup soup' : Soup) :
  (attempt < retry_count)%nat →
  post attempt = Transport.Page soup' →
  first_page post attempt retry_count soup ↔ soup' = soup.
Proof.
  intros Hlt Hpage. split.
  - intros (i & Hi & Hp & Hj). destruct (decide (i = attempt)) as [->|Hne].
    + congruence.
    + exfalso. apply (Hj attempt soup'); [lia|done].
  - intros <-. exists attempt. split; [lia|]. split; [done|]. intros j s Hj. lia.
Qed.

Lemma first_page_later (post : nat → Transport.Response) (attempt retry_count : nat)
    (soup : Soup) :
  (∀ soup', post attempt ≠ Transport.Page soup') →
  first_page post attempt retry_count soup
  ↔ first_page post (S attempt) retry_count soup.
Proof.
  intros Hno. split.
  - intros (i & Hi & Hp & Hj). exists i. split; [|split; [done|]].
    + destruct (decide (i = attempt)) as [->|]; [by apply Hno in Hp|lia].
    + intros j s Hji. apply Hj. lia.
  - intros (i & Hi & Hp & Hj). exists i. split; [lia|]. split; [done|].
    intros j s Hji. destruct (decide (j = attempt)) as [->|]; [apply Hno|apply Hj; lia].
Qed.

Lemma first_page_none (post : nat → Transport.Response) (attempt retry_count : nat)
    (soup : Soup) :
  (retry_count ≤ attempt)%nat → ¬ first_page post attempt retry_count soup.
Proof. intros Hle (i & Hi & _). lia. Qed.

Lemma attempts_first_page (post : nat → Transport.Response)
    (retry_count attempt remaining : nat) (soup : Soup) :
  (attempt + remaining = retry_count)%nat →
  Transport.attempts post retry_count attempt remaining = Some soup ↔
  first_page post attempt retry_count soup.
Proof.
  revert attempt. induction remaining as [|remaining IH]; intros attempt Hsum.
  - cbn. split; [done|]. by intros ?%first_page_none; [|lia].
  - cbn [Transport.attempts]. specialize (IH (S attempt) ltac:(lia)).
    destruct (post attempt) as [soup'| | |] eqn:Hpost.
    + rewrite (first_page_here post attempt retry_count soup soup') by (done || lia).
      split; [by intros [= ->]|by intros ->].
    + rewrite first_page_later by (intros s; congruence). done.
    + rewrite first_page_later by (intros s; congruence).
      destruct (Nat.eqb_spec attempt (retry_count - 1)); [|done].
      split; [done|]. by intros ?%first_page_none; [|lia].
    + rewrite first_page_later by (intros s; congruence).
      destruct (Nat.ltb_spec attempt (retry_count - 1)); [done|].
      split; [done|]. by intros ?%first_page_none; [|lia].
Qed.

(** X1. The fetcher of main.py returns the page of its first attempt that gets
    one, out of three. *)
Theorem fetch_page_first_success
    (post : string → option string → nat → Transport.Response)
    (url : string) (referer : option string) (soup : Soup) :
  Transport.fetch_page post url referer = Some soup ↔
  first_page (post url referer) 0 3 soup.
Proof. by apply attempts_first_page. Qed.

Lemma timed_attempts_fetched (post : nat → Timed.Outcome)
    (retry_count attempt remaining : nat) :
  fetched (Timed.attempts post retry_count attempt remaining)
  = Transport.attempts (λ i, Timed.response (post i)) retry_count attempt remaining.
Proof.
  revert attempt. induction remaining as [|remaining IH]; intros attempt; [done|].
  cbn [Timed.attempts Transport.attempts].
  destruct (post attempt); cbn [Timed.response]; [done|apply IH|..].
  - destruct (Nat.eqb _ _); [done|apply IH].
  - destruct (Nat.ltb _ _); [apply IH|done].
  - destruct (Nat.ltb _ _); [apply IH|done].
Qed.

Lemma cloudscraper_attempts_fetched (post : nat → Timed.Outcome)
    (retry_count attempt remaining : nat) :
  (attempt + remaining = retry_count)%nat →
  fetched (Cloudscraper.attempts post retry_count attempt remaining)
  = Transport.attempts (λ i, Timed.response (post i)) retry_count attempt remaining.
Proof.
  revert attempt. induction remaining as [|remaining IH]; intros attempt Hsum; [done|].
  cbn [Cloudscraper.attempts Transport.attempts].
  specialize (IH (S attempt)).
  destruct (post attempt); cbn [Timed.response]; [done|..];
    destruct (Nat.ltb_spec attempt (retry_count - 1)) as [Hlt|Hge];
    try destruct (Nat.eqb_spec attempt (retry_count - 1)) as [Heq|Hne];
    try lia; try (apply IH; lia); try done.
  destruct remaining; [done|lia].
Qed.

(** X2. The retry loops of main.py and of main_cloudscraper.py return the same
    page, or both none, on the same outcomes of the three attempts: the
    separate treatment of HTTP errors in main.py changes the waits only. *)
Theorem fetchers_agree
    (post : string → option string → nat → Timed.Outcome)
    (url : string) (referer : option string) :
  fetched (Timed.fetch_page post url referer)
    = Transport.fetch_page (λ u r i, Timed.response (post u r i)) url referer ∧
  fetched (Cloudscraper.fetch_page post url referer)
    = fetched (Timed.fetch_page post url referer).
Proof.
  unfold Timed.fetch_page, Cloudscraper.fetch_page, Transport.fetch_page.
  rewrite timed_attempts_fetched, cloudscraper_attempts_fetched by done. done.
Qed.

(** X3. A call of the fetcher of main.py sends at most three requests, all
    three when it fails, and one when the first succeeds; it sleeps at most
    18 seconds, and between 1 and 10 when it returns a page. *)
Theorem fetch_page_waits
    (post : string → option string → nat → Timed.Outcome)
    (url : string) (referer : option string) :
  let f := Timed.fetch_page post url referer in
  (requests f ≤ 3)%nat ∧
  0 ≤ slept f ≤ 18 ∧
  (fetched f = None → requests f = 3%nat) ∧
  (is_Some (fetched f) → DELAY_BETWEEN_REQUESTS ≤ slept f ≤ 10) ∧
  (∀ soup, post url referer 0%nat = Timed.Got soup →
           f = mkFetched (Some soup) 1 DELAY_BETWEEN_REQUESTS).
Proof.
  unfold Timed.fetch_page. cbn.
  destruct (post url referer 0%nat) eqn:H0;
    destruct (post url referer 1%nat) eqn:H1;
    destruct (post url referer 2%nat) eqn:H2; cbn;
    split_and!;
    first [ lia | done | by intros [? [=]] | by intros ? [= ->]
          | intros _; unfold DELAY_BETWEEN_REQUESTS; lia
          | unfold DELAY_BETWEEN_REQUESTS; lia ].
Qed.

Lemma fetch_page_waits_witness :
  let f := Timed.fetch_page Fixture.flaky "https://www.wowprogress.com/" None in
  fetched f = Some Example.first_page ∧ requests f = 3%nat ∧ slept f = 8 ∧
  DELAY_BETWEEN_REQUESTS ≤ slept f ≤ 10.
Proof.
  intros f.
  destruct (fetch_page_waits Fixture.flaky "https://www.wowprogress.com/" None)
    as (_ & _ & _ & Hpage & _).
  split_and!; [reflexivity..|apply Hpage; by eexists|apply Hpage; by eexists].
Defined.

(** X4. A call of the fetcher of main_cloudscraper.py sends at most three
    requests; when it fails it has sent three and slept between six and
    nine seconds, and when it returns a page it has slept between one and
    nine. *)
Theorem cloudscraper_fetch_page_waits
    (post : string → option string → nat → Timed.Outcome)
    (url : string) (referer : option string) :
  let f := Cloudscraper.fetch_page post url referer in
  (requests f ≤ 3)%nat ∧
  (fetched f = None → requests f = 3%nat ∧ 6 ≤ slept f ≤ 9) ∧
  (is_Some (fetched f) → DELAY_BETWEEN_REQUESTS ≤ slept f ≤ 9).
Proof.
  unfold Cloudscraper.fetch_page. cbn.
  destruct (post url referer 0%nat) eqn:H0;
    destruct (post url referer 1%nat) eqn:H1;
    destruct (post url referer 2%nat) eqn:H2; cbn;
    split_and!;
    first [ lia | done | by intros [? [=]]
          | intros _; unfold DELAY_BETWEEN_REQUESTS; lia ].
Qed.

Lemma cloudscraper_fetch_page_waits_witness :
  let f := Cloudscraper.fetch_page Fixture.flaky "https://www.wowprogress.com/" None in
  fetched f = Some Example.first_page ∧ slept f = 7 ∧
  DELAY_BETWEEN_REQUESTS ≤ slept f ≤ 9.
Proof.
  intros f.
  destruct (cloudscraper_fetch_page_waits Fixture.flaky
              "https://www.wowprogress.com/" None) as (_ & _ & Hpage).
  split_and!; [reflexivity..|apply Hpage; by eexists|apply Hpage; by eexists].
Defined.

(** ** Cookies *)

Lemma split_length (sep : ascii) (s : string) :
  length (Cookies.split sep s) = S (Cookies.count sep s).
Proof.
  induction s as [|c s IH]; [done|]. cbn.
  destruct (Ascii.eqb c sep); cbn; [by rewrite IH|].
  destruct (Cookies.split sep s); [done|]. by rewrite <- IH.
Qed.

Lemma count_app (sep : ascii) (s t : string) :
  Cookies.count sep (s +:+ t)
  = (Cookies.count sep s + Cookies.count sep t)%nat.
Proof.
  induction s as [|c s IH]; [done|]. rewrite app_cons. cbn. rewrite IH. lia.
Qed.

Lemma count_strip (sep : ascii) (s : string) :
  (Cookies.count sep (Py.strip s) ≤ Cookies.count sep s)%nat.
Proof.
  destruct (strip_trimmed s) as (lead & trail & Hs & _).
  rewrite Hs at 2. rewrite !count_app. lia.
Qed.




Lemma cookie_of_line_fields (int : string → option Z)
    (accepts : Cookies.Cookie → bool) (line : string) :
  String.prefix "#" line = false →
  (6 ≤ Cookies.count Cookies.tab (Py.strip line))%nat →
  ∃ domain flag path secure expires_field name value rest,
    Cookies.split Cookies.tab (Py.strip line)
      = domain :: flag :: path :: secure :: expires_field :: name :: value :: rest ∧
    Cookies.cookie_of_line int accepts line
      = (expires ← (if negb (String.eqb expires_field "0")
                    then Some <$> int expires_field else Some None);
         let cookie := Cookies.mkCookie name value domain path
                         (String.eqb secure "TRUE") expires in
         if accepts cookie then Some cookie else None).
Proof.
  intros Hcomment Hcount. unfold Cookies.cookie_of_line. rewrite Hcomment.
  pose proof (split_length Cookies.tab (Py.strip line)) as Hlen.
  destruct (String.eqb_spec (Py.strip line) "") as [Hblank|_].
  { rewrite Hblank in Hcount. cbn in Hcount. lia. }
  cbn [orb].
  destruct (Cookies.split Cookies.tab (Py.strip line))
    as [|p0 [|p1 [|p2 [|p3 [|p4 [|p5 [|p6 rest]]]]]]]; cbn in Hlen; try lia.
  exists p0, p1, p2, p3, p4, p5, p6, rest. split; [done|]. cbn.
  by destruct (negb _); [destruct (int p4)|].
Qed.

(** X6. A line sets the cookie [cookie] exactly when it is no comment, has at
    least seven fields once stripped, its fifth field is "0" or a number for
    [int], [cookie] is made of the fields (the expiry absent for "0"), and
    [session.cookies.set] takes it. *)
Theorem cookie_line_loaded_iff (int : string → option Z)
    (accepts : Cookies.Cookie → bool) (line : string) (cookie : Cookies.Cookie) :
  Cookies.cookie_of_line int accepts line = Some cookie ↔
  String.prefix "#" line = false ∧
  ∃ domain flag path secure expires_field name value rest expires,
    Cookies.split Cookies.tab (Py.strip line)
      = domain :: flag :: path :: secure :: expires_field :: name :: value :: rest ∧
    (expires_field = "0" ∧ expires = None ∨
     expires_field ≠ "0" ∧ ∃ number, int expires_field = Some number ∧
                                      expires = Some number) ∧
    cookie = Cookies.mkCookie name value domain path
               (String.eqb secure "TRUE") expires ∧
    accepts cookie = true.
Proof.
  split.
  - intros Hsome.
    assert (Hcomment : String.prefix "#" line = false).
    { unfold Cookies.cookie_of_line in Hsome.
      by destruct (String.prefix "#" line). }
    assert (Hcount : (6 ≤ Cookies.count Cookies.tab (Py.strip line))%nat).
    { unfold Cookies.cookie_of_line in Hsome. rewrite Hcomment in Hsome.
      pose proof (split_length Cookies.tab (Py.strip line)) as Hlen.
      destruct (String.eqb _ _); [done|]. cbn [orb] in Hsome.
      destruct (Nat.leb_spec 7 (length (Cookies.split Cookies.tab (Py.strip line))));
        [lia|done]. }
    split; [done|].
    destruct (cookie_of_line_fields int accepts line Hcomment Hcount)
      as (p0 & p1 & p2 & p3 & p4 & p5 & p6 & rest & Hsplit & Hcookie).
    rewrite Hcookie in Hsome. clear Hcookie.
    destruct (String.eqb_spec p4 "0") as [->|Hne]; cbn in Hsome.
    + destruct (accepts _) eqn:Haccepts; [|done]. injection Hsome as <-.
      exists p0, p1, p2, p3, "0", p5, p6, rest, None. split_and!; auto.
    + destruct (int p4) as [number|] eqn:Hint; [|done]. cbn in Hsome.
      destruct (accepts _) eqn:Haccepts; [|done]. injection Hsome as <-.
      exists p0, p1, p2, p3, p4, p5, p6, rest, (Some number).
      split_and!; eauto.
  - intros (Hcomment & p0 & p1 & p2 & p3 & p4 & p5 & p6 & rest & expires
            & Hsplit & Hexpires & -> & Haccepts).
    assert (Hcount : (6 ≤ Cookies.count Cookies.tab (Py.strip line))%nat).
    { pose proof (split_length Cookies.tab (Py.strip line)) as Hlen.
      rewrite Hsplit in Hlen. cbn in Hlen. lia. }
    destruct (cookie_of_line_fields int accepts line Hcomment Hcount)
      as (q0 & q1 & q2 & q3 & q4 & q5 & q6 & rest' & Hsplit' & ->).
    rewrite Hsplit in Hsplit'. simplify_eq.
    destruct Hexpires as [[-> ->]|(Hne & number & Hint & ->)].
    + cbn. by rewrite Haccepts.
    + apply String.eqb_neq in Hne. rewrite Hne. cbn. rewrite Hint. cbn.
      by rewrite Haccepts.
Qed.

Lemma cookie_line_loaded_iff_witness :
  Cookies.cookie_of_line Fixture.int Fixture.accepts Fixture.session_line
  = Some (Cookies.mkCookie "sessionid" "abc123" ".wowprogress.com" "/" true
            (Some 1893456000)).
Proof.
  apply (proj2 (cookie_line_loaded_iff Fixture.int Fixture.accepts
                  Fixture.session_line _)).
  split; [reflexivity|].
  exists ".wowprogress.com", "TRUE", "/", "TRUE", "1893456000", "sessionid",
    "abc123", [], (Some 1893456000).
  split_and!; [reflexivity| |reflexivity|reflexivity].
  right. split; [done|]. by exists 1893456000.
Defined.

(** X7. A line with at most five tabs in front of its trailing white space sets
    no cookie: so a cookie whose value, the seventh field, is empty is
    dropped, the tab in front of the value being stripped with the line end. *)
Theorem cookie_short_line_dropped (int : string → option Z)
    (accepts : Cookies.Cookie → bool) (body trail : string) :
  all_space trail →
  (Cookies.count Cookies.tab body ≤ 5)%nat →
  Cookies.cookie_of_line int accepts (body +:+ trail) = None.
Proof.
  intros Htrail Hcount. unfold Cookies.cookie_of_line.
  destruct (_ || _); [done|].
  rewrite (strip_trailing_space body trail Htrail), split_length.
  pose proof (count_strip Cookies.tab body).
  by destruct (Nat.leb_spec 7 (S (Cookies.count Cookies.tab (Py.strip body)))); [lia|].
Qed.

Lemma cookie_short_line_dropped_witness :
  Cookies.cookie_of_line Fixture.int Fixture.accepts Fixture.empty_value_line
  = None.
Proof.
  apply (cookie_short_line_dropped Fixture.int Fixture.accepts
           Fixture.empty_value_body).
  - by apply blank_all_space.
  - vm_compute. lia.
Defined.

(** ** Records of the Row Extractor *)

Lemma contains_count (sep : ascii) (s : string) :
  Py.contains (String sep EmptyString) s = negb (Nat.eqb (Cookies.count sep s) 0).
Proof.
  induction s as [|c s IH]; [done|].
  rewrite contains_char_cons, IH. cbn [Cookies.count].
  rewrite (Ascii.eqb_sym sep c). by destruct (Ascii.eqb c sep).
Qed.

Lemma before_first_no_sep (sep : ascii) (s : string) :
  Cookies.count sep (before_first sep s) = 0%nat.
Proof.
  induction s as [|c s IH]; [done|]. cbn [before_first].
  destruct (Ascii.eqb c sep) eqn:Hc; [done|]. cbn. by rewrite Hc.
Qed.

Lemma row_record_wellformed (row : Row) :
  valid_eu_row row = true →
  Py.upper (region (row_record row)) = "EU" ∧
  Py.contains "-" (region (row_record row)) = false ∧
  no_outer_space (name (row_record row)) ∧
  no_outer_space (realm (row_record row)) ∧
  no_outer_space (region (row_record row)).
Proof.
  destruct row as [|[link|] [realm_link|]]; try done.
  cbn [valid_eu_row row_record name realm region].
  intros [[_ _]%andb_prop Hcase]%andb_prop.
  split_and!; try apply strip_no_outer_space.
  - rewrite <- upper_EU in Hcase. by apply String.eqb_eq in Hcase.
  - change "-" with (String "-"%char EmptyString). rewrite contains_count.
    pose proof (count_strip "-" (before_first "-" (Py.strip realm_link))) as Hle.
    rewrite before_first_no_sep in Hle.
    by destruct (Cookies.count "-" (Py.strip (before_first "-" (Py.strip realm_link)))); [|lia].
Qed.

(** X8. Every record of the Row Extractor has a region that is "EU" in upper
    case and has no hyphen, and a name, a realm and a region without white
    space around them. *)
Theorem extracted_records_wellformed (soup : Soup) :
  Forall (λ guild,
            Py.upper (region guild) = "EU" ∧
            Py.contains "-" (region guild) = false ∧
            no_outer_space (name guild) ∧
            no_outer_space (realm guild) ∧
            no_outer_space (region guild))
         (extract_guilds_from_page soup).
Proof.
  rewrite extract_guilds_filter. apply Forall_fmap, Forall_forall.
  intros row [_ Hvalid]%list_elem_of_In%filter_In. by apply row_record_wellformed.
Qed.

(** X9. The rows of a page are extracted one by one: the records of two runs of
    rows are the records of the first followed by those of the second, and
    a page never gives more records than it has rows. *)
Theorem extract_guilds_rows_independent (rows1 rows2 : list Row)
    (spans : list ProgressSpan) (lang : option string) :
  extract_guilds_from_page (mkSoup (rows1 ++ rows2) spans lang)
    = extract_guilds_from_page (mkSoup rows1 spans lang)
      ++ extract_guilds_from_page (mkSoup rows2 spans lang) ∧
  (length (extract_guilds_from_page (mkSoup rows1 spans lang)) ≤ length rows1)%nat ∧
  extract_guilds_from_page (mkSoup [] spans lang) = [].
Proof.
  rewrite !extract_guilds_filter. cbn [find_all_tr].
  split_and!; [by rewrite List.filter_app, fmap_app| |done].
  rewrite length_fmap. apply filter_length_le.
Qed.

(** ** More on the Tier Crawler *)

Section CrawlFacts.

Variable fetch_page : string → option string → option Soup.
Variable has_progress : Soup → bool.
Variable tier : Z.

Local Abbreviation next := (crawl_next fetch_page has_progress tier).

Lemma well_referred_reachable (c c' : Crawl) :
  well_referred tier c → rtc next c c' → well_referred tier c'.
Proof.
  intros Hc Hrtc. induction Hrtc as [|c c1 c2 Hstep _ IH]; [done|].
  apply IH. by eapply well_referred_next.
Qed.

(** X10. In a crawl that starts at the first page or later, the request for the
    first page [-1] names that page as referer and the request for any other
    page names the page before it, whether the crawl has come from that page
    or starts here: a resumed crawl sends what the uninterrupted one does. *)
Theorem crawl_sends_same_referer (start_page : Z)
    (progress_file : gmap string ProgressEntry) (c : Crawl) :
  -1 ≤ start_page →
  rtc next (mkCrawl start_page [] None progress_file) c →
  referer_for tier (page c) (prev_url c)
    = rating_url tier (if decide (page c > -1) then page c - 1 else -1) ∧
  fetch_page (rating_url tier (page c))
    (Some (referer_for tier (page c) (prev_url c)))
    = request fetch_page tier (page c).
Proof.
  intros Hstart Hrtc.
  assert (Hc : well_referred tier c).
  { eapply well_referred_reachable; [|done]. by apply well_referred_start. }
  split; [apply Hc|by apply well_referred_request].
Qed.

Lemma checkpoint_entry (c0 c : Crawl) :
  rtc next c0 c →
  c = c0 ∨
  (page c0 < page c ∧
   progress c !! pretty tier
     = Some (mkProgress (page c - 1) (length (all_guilds c)))).
Proof.
  intros Hrtc. revert c Hrtc. apply rtc_ind_r; [by left|].
  intros c c' Hrtc Hstep IH.
  right. apply crawl_step_inl in Hstep as (soup & _ & _ & ->). cbn.
  rewrite lookup_insert_eq. split.
  - destruct IH as [->|[Hlt _]]; lia.
  - do 2 f_equal. lia.
Qed.

(** X11. Behind the first iteration of a crawl the checkpoint of its tier names
    the page before the current one and counts the records this call has
    gathered, which begin with the records the loop started with: the count
    of a resumed crawl leaves out the records of the crawl it resumes. *)
Theorem checkpoint_counts_gathered (start_page : Z)
    (progress_file : gmap string ProgressEntry) (c : Crawl) :
  rtc next (mkCrawl start_page [] None progress_file) c →
  (page c = start_page ∧ all_guilds c = [] ∧ progress c = progress_file) ∨
  (start_page < page c ∧
   progress c !! pretty tier
     = Some (mkProgress (page c - 1) (length (all_guilds c)))).
Proof.
  intros [->|Hentry]%checkpoint_entry; [by left|by right].
Qed.

(** X12. A crawl writes the progress of its own tier only. *)
Theorem crawl_keeps_other_tiers (fuel : nat) (start_page other : Z)
    (progress_file progress_file' : gmap string ProgressEntry)
    (gathered : list Guild) :
  scrape_tier_guilds fetch_page has_progress fuel tier start_page progress_file
    = Some (gathered, progress_file') →
  other ≠ tier →
  progress_file' !! pretty other = progress_file !! pretty other.
Proof.
  intros Hrun Hother.
  apply (crawl_loop_other_tiers _ _ _ _ _ _ (pretty other)) in Hrun; [done|].
  intros Heq. by apply (inj pretty) in Heq.
Qed.

Lemma pages_guilds_snoc (start : Z) (n : nat) :
  pages_guilds fetch_page tier start (S n)
  = pages_guilds fetch_page tier start n
    ++ match request fetch_page tier (start + Z.of_nat n) with
       | Some soup => extract_guilds_from_page soup
       | None => []
       end.
Proof.
  unfold pages_guilds. rewrite seq_S, flat_map_app. cbn. by rewrite app_nil_r.
Qed.

(** X13. A crawl whose pages are all fetched ends at the first page for which the
    oracle says "do not continue": it returns the records of every page up
    to that one, that one included, and the checkpoint it leaves names the
    page before it (or is the one it found when the first page ends it). *)
Theorem crawl_ends_without_progress (fuel : nat) (start_page : Z) (n : nat)
    (progress_file : gmap string ProgressEntry) (last_soup : Soup) :
  -1 ≤ start_page →
  (∀ i : nat, (i < n)%nat →
     continues fetch_page has_progress tier (start_page + Z.of_nat i)) →
  request fetch_page tier (start_page + Z.of_nat n) = Some last_soup →
  has_progress last_soup = false →
  (n < fuel)%nat →
  ∃ progress_file',
    scrape_tier_guilds fetch_page has_progress fuel tier start_page progress_file
      = Some (pages_guilds fetch_page tier start_page (S n), progress_file') ∧
    (n = 0%nat → progress_file' = progress_file) ∧
    ((0 < n)%nat →
       progress_file' !! pretty tier
         = Some (mkProgress (start_page + Z.of_nat n - 1)
                   (length (pages_guilds fetch_page tier start_page n)))).
Proof.
  intros Hstart Hgo Hlast Hstop Hfuel.
  set (c0 := mkCrawl start_page [] None progress_file).
  destruct (crawl_pages fetch_page has_progress tier n c0)
    as (c_n & Hpage & Hall & Href & Hzero & _ & _ & Hrtc & Hrun);
    [by apply well_referred_start|done|].
  cbn in Hpage, Hall.
  exists (progress c_n). split_and!.
  - unfold scrape_tier_guilds. fold c0.
    replace fuel with (n + S (fuel - n - 1))%nat by lia. rewrite Hrun.
    cbn [crawl_loop]. unfold crawl_step.
    rewrite (well_referred_request _ _ c_n Href), Hpage, Hlast, Hstop. cbn [negb].
    by rewrite Hall, pages_guilds_snoc, Hlast.
  - intros Hn. by apply Hzero.
  - intros Hn. destruct (checkpoint_entry c0 c_n Hrtc) as [->|[_ Hentry]].
    + cbn in Hpage. lia.
    + rewrite Hentry, Hpage, Hall. done.
Qed.

End CrawlFacts.

Lemma example_crawl_step :
  crawl_next Example.site has_mythic_progress 35
    Fixture.crawl_start Fixture.crawl_second.
Proof. reflexivity. Qed.

Lemma crawl_sends_same_referer_witness :
  referer_for 35 0 (Some (rating_url 35 (-1))) = rating_url 35 (-1) ∧
  Example.site (rating_url 35 0) (Some (rating_url 35 (-1)))
    = request Example.site 35 0.
Proof.
  apply (crawl_sends_same_referer Example.site has_mythic_progress 35 (-1) ∅
           Fixture.crawl_second).
  - lia.
  - apply rtc_once, example_crawl_step.
Defined.

Lemma checkpoint_counts_gathered_witness :
  progress Fixture.crawl_second !! pretty 35 = Some (mkProgress (-1) 1).
Proof.
  destruct (checkpoint_counts_gathered Example.site has_mythic_progress 35 (-1) ∅
              Fixture.crawl_second) as [[Hpage _]|[_ Hentry]].
  - apply rtc_once, example_crawl_step.
  - discriminate Hpage.
  - exact Hentry.
Defined.

Lemma crawl_keeps_other_tiers_witness :
  ∃ gathered progress_file',
    scrape_tier_guilds Example.site has_mythic_progress 5 35 (-1)
      {[ pretty 22 := mkProgress 7 3 ]} = Some (gathered, progress_file') ∧
    progress_file' !! pretty 22 = Some (mkProgress 7 3).
Proof.
  destruct (scrape_tier_guilds Example.site has_mythic_progress 5 35 (-1)
              {[ pretty 22 := mkProgress 7 3 ]}) as [[gathered pf]|] eqn:Hrun;
    [|by vm_compute in Hrun].
  exists gathered, pf. split; [done|].
  rewrite (crawl_keeps_other_tiers _ _ _ _ _ 22 _ _ _ Hrun); [reflexivity|lia].
Defined.

Lemma crawl_ends_without_progress_witness :
  ∃ progress_file',
    scrape_tier_guilds Example.site has_mythic_progress 2 35 (-1) ∅
      = Some ([Example.alpha; Example.beta], progress_file') ∧
    progress_file' !! pretty 35 = Some (mkProgress (-1) 1).
Proof.
  destruct (crawl_ends_without_progress Example.site has_mythic_progress 35
              2 (-1) 1 ∅ Example.second_page) as (pf & Hrun & _ & Hentry).
  - lia.
  - intros i Hi. assert (i = 0%nat) as -> by lia.
    exists Example.first_page. split; reflexivity.
  - reflexivity.
  - reflexivity.
  - lia.
  - exists pf. split; [exact Hrun|]. apply Hentry. lia.
Defined.

(** ** Addresses *)

Lemma pretty_N_char_no_slash (x : N) : Ascii.eqb (pretty_N_char x) "/" = false.
Proof. unfold pretty_N_char. by repeat case_match. Qed.

Lemma pretty_N_go_no_slash (x : N) (s : string) :
  Cookies.count "/" (pretty_N_go x s) = Cookies.count "/" s.
Proof.
  revert s. induction (N.lt_wf_0 x) as [x _ IH]; intros s.
  assert (x = 0 ∨ 0 < x)%N as [->|Hpos] by lia.
  - by rewrite pretty_N_go_0.
  - rewrite pretty_N_go_step by done. rewrite IH by by apply N.div_lt.
    cbn. by rewrite pretty_N_char_no_slash.
Qed.

Lemma pretty_N_no_slash (x : N) : Cookies.count "/" (pretty x) = 0%nat.
Proof.
  unfold pretty, pretty_N. destruct (decide (x = 0%N)); [done|].
  apply pretty_N_go_no_slash.
Qed.

Lemma pretty_Z_no_slash (z : Z) : Py.contains "/" (pretty z) = false.
Proof.
  change "/" with (String "/"%char EmptyString). rewrite contains_count.
  destruct z as [|p|p]; [done|..].
  - change (pretty (Z.pos p)) with (pretty (N.pos p)). by rewrite pretty_N_no_slash.
  - change (pretty (Z.neg p)) with ("-" +:+ pretty (N.pos p)).
    rewrite app_cons, app_empty_l. cbn [Cookies.count].
    by rewrite pretty_N_no_slash.
Qed.

(** X14. Two requests of the crawl have the same address only when they are for
    the same page of the same tier. *)
Theorem rating_url_inj (tier page tier' page' : Z) :
  rating_url tier page = rating_url tier' page' → tier = tier' ∧ page = page'.
Proof.
  unfold rating_url. intros Heq.
  apply (inj (String.app BASE_URL)) in Heq.
  apply (inj (String.app "/pve/rating/next/")) in Heq.
  change ("/rating.tier" +:+ ?s) with (String "/"%char ("rating.tier" +:+ s)) in Heq.
  pose proof (before_after_first "/" (pretty page) ("rating.tier" +:+ pretty tier)
                (pretty_Z_no_slash page)) as [Hb Ha].
  pose proof (before_after_first "/" (pretty page') ("rating.tier" +:+ pretty tier')
                (pretty_Z_no_slash page')) as [Hb' Ha'].
  rewrite Heq in Hb, Ha. rewrite Hb' in Hb. rewrite Ha' in Ha.
  apply (inj (String.app "rating.tier")) in Ha.
  apply (inj pretty) in Ha, Hb. done.
Qed.

Lemma rating_url_inj_witness :
  rating_url 35 0 = "https://www.wowprogress.com/pve/rating/next/0/rating.tier35" ∧
  (35 = 35 ∧ 0 = 0).
Proof. split; [reflexivity|]. by apply rating_url_inj. Defined.

(** ** More on the Orchestrator *)

Lemma elem_of_range_down (start stop tier : Z) :
  tier ∈ range_down start stop ↔ stop < tier ≤ start.
Proof.
  unfold range_down. rewrite list_elem_of_fmap. split.
  - intros (i & -> & Hi%list_elem_of_In%in_seq). lia.
  - intros Htier. exists (Z.to_nat (start - tier)). split; [lia|].
    apply list_elem_of_In, in_seq. lia.
Qed.

Lemma tiers_in_order_nodup : NoDup tiers_in_order.
Proof. compute_done. Qed.

Section Completion.

Variable fetch_page : string → option string → option Soup.
Variable has_progress : Soup → bool.
Variable fuel : nat.
Variable tier_progress : gmap string ProgressEntry.

Local Abbreviation visit := (tier_step fetch_page has_progress fuel tier_progress).
Local Abbreviation visit_all := (tiers_loop fetch_page has_progress fuel tier_progress).

Lemma tier_step_completes (m m' : Main) (tier : Z) :
  visit m tier = Some m' →
  already_completed (all_guilds_data m') tier = true ∧
  (∀ tier', already_completed (all_guilds_data m) tier' = true →
            already_completed (all_guilds_data m') tier' = true ∧
            stored_guilds (all_guilds_data m') tier'
              = stored_guilds (all_guilds_data m) tier') ∧
  (guilds_with_mythic_file (disk m) = all_guilds_data m →
   guilds_with_mythic_file (disk m') = all_guilds_data m').
Proof.
  unfold tier_step. destruct (already_completed _ tier) eqn:Hdone.
  - intros [= <-]. done.
  - destruct (scrape_tier_guilds _ _ _ _ _ _) as [[gathered pf]|]; [|done].
    intros [= <-]. cbn. split_and!; [|intros tier' Hdone'; split|done].
    + unfold already_completed. by rewrite lookup_insert_eq.
    + unfold already_completed in *.
      destruct (decide (pretty tier = pretty tier')) as [Heq|Hne].
      * by rewrite Heq, lookup_insert_eq.
      * by rewrite lookup_insert_ne.
    + unfold stored_guilds, already_completed in *.
      destruct (decide (pretty tier = pretty tier')) as [Heq|Hne].
      * rewrite Heq in Hdone. by rewrite Hdone' in Hdone.
      * by rewrite lookup_insert_ne.
Qed.

Lemma tiers_loop_completes (tiers : list Z) (m m' : Main) :
  visit_all m tiers = Some m' →
  (∀ tier, tier ∈ tiers → already_completed (all_guilds_data m') tier = true) ∧
  (∀ tier, already_completed (all_guilds_data m) tier = true →
           already_completed (all_guilds_data m') tier = true ∧
           stored_guilds (all_guilds_data m') tier
             = stored_guilds (all_guilds_data m) tier) ∧
  (guilds_with_mythic_file (disk m) = all_guilds_data m →
   guilds_with_mythic_file (disk m') = all_guilds_data m').
Proof.
  revert m. induction tiers as [|tier rest IH]; intros m.
  - intros [= <-]. split_and!; [by intros ? ?%elem_of_nil|done|done].
  - rewrite tiers_loop_cons.
    destruct (visit m tier) as [m1|] eqn:Hvisit; [|done]. cbn.
    intros Hrest. destruct (IH m1 Hrest) as (Hall & Hkeep & Hdisk).
    apply tier_step_completes in Hvisit as (Hthis & Hkeep1 & Hdisk1).
    split_and!.
    + intros tier' [->|Hin]%elem_of_cons; [by apply Hkeep|by apply Hall].
    + intros tier' Hdone. destruct (Hkeep1 tier' Hdone) as [Hdone1 Hsame1].
      destruct (Hkeep tier' Hdone1) as [Hdone2 Hsame2]. split; [done|congruence].
    + intros Hinit. by apply Hdisk, Hdisk1.
Qed.

End Completion.

(** X15. When the loop over the tiers ends, every tier from 22 to 35 stands in
    the tier-records file as completed, whatever its crawl has met, and a
    tier that stood there as completed before still has the records it had. *)
Theorem run_completes_every_tier
    (fetch_page : string → option string → option Soup) (has_progress : Soup → bool)
    (fuel : nat) (files : Files) (m : Main) :
  tiers_loop fetch_page has_progress fuel (tier_progress_file files)
    (mkMain files (guilds_with_mythic_file files) []) tiers_in_order = Some m →
  guilds_with_mythic_file (disk m) = all_guilds_data m ∧
  (∀ tier, START_TIER ≤ tier ≤ END_TIER →
           already_completed (guilds_with_mythic_file (disk m)) tier = true) ∧
  (∀ tier, already_completed (guilds_with_mythic_file files) tier = true →
           stored_guilds (guilds_with_mythic_file (disk m)) tier
             = stored_guilds (guilds_with_mythic_file files) tier).
Proof.
  intros (Hall & Hkeep & Hdisk)%tiers_loop_completes.
  cbn in Hkeep, Hdisk. rewrite Hdisk by done. split_and!; [done| |].
  - intros tier Htier. apply Hall, elem_of_range_down.
    unfold START_TIER, END_TIER in *. lia.
  - intros tier Hdone. by apply Hkeep.
Qed.

Lemma run_completes_every_tier_witness :
  ∃ m,
    tiers_loop Example.site_failing has_mythic_progress 5 ∅
      (mkMain Example.no_files ∅ []) tiers_in_order = Some m ∧
    already_completed (guilds_with_mythic_file (disk m)) 35 = true ∧
    already_completed (guilds_with_mythic_file (disk m)) 22 = true.
Proof.
  destruct (tiers_loop Example.site_failing has_mythic_progress 5 ∅
              (mkMain Example.no_files ∅ []) tiers_in_order) as [m|] eqn:Hrun;
    [|by vm_compute in Hrun].
  exists m. split; [done|].
  destruct (run_completes_every_tier Example.site_failing has_mythic_progress 5
              Example.no_files m Hrun) as (_ & Hall & _).
  split; [apply (Hall 35)|apply (Hall 22)]; unfold START_TIER, END_TIER; lia.
Defined.

Lemma tiers_loop_offline
    (fetch_page : string → option string → option Soup) (has_progress : Soup → bool)
    (fuel : nat) (tier_progress : gmap string ProgressEntry)
    (tiers : list Z) (m : Main) :
  (∀ tier, tier ∈ tiers → already_completed (all_guilds_data m) tier = true) →
  tiers_loop fetch_page has_progress fuel tier_progress m tiers
  = Some (mkMain (disk m) (all_guilds_data m)
            (add_unique (unique_guilds m)
               (flat_map (stored_guilds (all_guilds_data m)) tiers))).
Proof.
  revert m. induction tiers as [|tier rest IH]; intros m Hdone.
  - by destruct m.
  - rewrite tiers_loop_cons. unfold tier_step at 1.
    rewrite Hdone by left. cbn [mbind option_bind].
    rewrite IH by (intros tier' Hin; apply Hdone; by right). cbn.
    by rewrite add_unique_app.
Qed.

(** X16. A run over the files another run has left crawls nothing: with any
    fetcher, any oracle and no fuel at all its loop over the tiers ends with
    the same two tier files and the same map of unique guilds. *)
Theorem second_run_is_offline
    (fetch_page fetch_page' : string → option string → option Soup)
    (has_progress has_progress' : Soup → bool) (fuel : nat) (files : Files) (m : Main) :
  tiers_loop fetch_page has_progress fuel (tier_progress_file files)
    (mkMain files (guilds_with_mythic_file files) []) tiers_in_order = Some m →
  tiers_loop fetch_page' has_progress' 0 (tier_progress_file (disk m))
    (mkMain (disk m) (guilds_with_mythic_file (disk m)) []) tiers_in_order
  = Some (mkMain (disk m) (all_guilds_data m) (unique_guilds m)).
Proof.
  intros Hrun.
  pose proof (tiers_loop_completes _ _ _ _ _ _ _ Hrun) as (Hall & _ & Hdisk).
  pose proof (tiers_loop_merge _ _ _ _ _ _ _ tiers_in_order_nodup Hrun) as [Hunique _].
  cbn in Hdisk, Hunique. rewrite Hdisk by done.
  rewrite tiers_loop_offline by done. cbn. by rewrite Hunique.
Qed.

Lemma second_run_is_offline_witness :
  ∃ m,
    tiers_loop Example.site has_mythic_progress 5 ∅
      (mkMain Example.no_files ∅ []) tiers_in_order = Some m ∧
    tiers_loop Example.site_failing has_heroic_progress 0
      (tier_progress_file (disk m))
      (mkMain (disk m) (guilds_with_mythic_file (disk m)) []) tiers_in_order
    = Some (mkMain (disk m) (all_guilds_data m) (unique_guilds m)).
Proof.
  destruct (tiers_loop Example.site has_mythic_progress 5 ∅
              (mkMain Example.no_files ∅ []) tiers_in_order) as [m|] eqn:Hrun;
    [|by vm_compute in Hrun].
  exists m. split; [done|].
  exact (second_run_is_offline Example.site Example.site_failing
           has_mythic_progress has_heroic_progress 5 Example.no_files m Hrun).
Defined.

(** X17. [main] takes the start page of a tier from the progress file it has
    loaded at start-up; when the loop reaches the tier, the file on disk
    still has that entry for it, the tiers visited before having written
    their own entries only. *)
Theorem snapshot_is_current
    (fetch_page : string → option string → option Soup) (has_progress : Soup → bool)
    (fuel : nat) (files : Files) (visited : list Z) (tier : Z) (m : Main) :
  tier ∉ visited →
  tiers_loop fetch_page has_progress fuel (tier_progress_file files)
    (mkMain files (guilds_with_mythic_file files) []) visited = Some m →
  tier_progress_file (disk m) !! pretty tier = tier_progress_file files !! pretty tier ∧
  start_page_of (tier_progress_file (disk m)) tier
    = start_page_of (tier_progress_file files) tier.
Proof.
  intros Hfresh Hrun.
  assert (Hsame : tier_progress_file (disk m) !! pretty tier
                  = tier_progress_file files !! pretty tier).
  { apply (tiers_loop_progress _ _ _ _ _ _ _ _ Hrun).
    intros tier' Hin Heq. apply (inj pretty) in Heq as ->. done. }
  split; [done|]. unfold start_page_of. by rewrite Hsame.
Qed.

Lemma snapshot_is_current_witness :
  ∃ m,
    tiers_loop Example.site has_mythic_progress 5 ∅
      (mkMain Example.no_files ∅ []) [35; 34] = Some m ∧
    tier_progress_file (disk m) !! pretty 35 = Some (mkProgress (-1) 1) ∧
    start_page_of (tier_progress_file (disk m)) 33 = -1.
Proof.
  destruct (tiers_loop Example.site has_mythic_progress 5 ∅
              (mkMain Example.no_files ∅ []) [35; 34]) as [m|] eqn:Hrun;
    [|by vm_compute in Hrun].
  exists m. split; [done|].
  destruct (snapshot_is_current Example.site has_mythic_progress 5
              Example.no_files [35; 34] 33 m) as [_ Hstart].
  - intros [?|[?|?%elem_of_nil]%elem_of_cons]%elem_of_cons; [lia|lia|done].
  - exact Hrun.
  - split; [|by rewrite Hstart]. vm_compute in Hrun. by injection Hrun as <-.
Defined.

(** ** The map of unique guilds *)

Lemma odict_keys_set {V} (k : string) (v : V) (d : ODict.t V) :
  ODict.keys (ODict.set k v d)
  = if ODict.mem k d then ODict.keys d else ODict.keys d ++ [k].
Proof.
  induction d as [|[k' v'] d IH]; [done|]. cbn.
  destruct (String.eqb k k'); cbn; [done|].
  fold (ODict.keys (ODict.set k v d)). rewrite IH.
  by destruct (ODict.mem k d).
Qed.

Lemma odict_values_set {V} (k : string) (v x : V) (d : ODict.t V) :
  x ∈ ODict.values (ODict.set k v d) → x = v ∨ x ∈ ODict.values d.
Proof.
  induction d as [|[k' v'] d IH]; cbn.
  - intros ->%list_elem_of_singleton. by left.
  - destruct (String.eqb k k'); cbn.
    + intros [->|Hin]%elem_of_cons; [by left|right; by right].
    + intros [->|Hin]%elem_of_cons; [right; left|].
      destruct (IH Hin) as [->|Hd]; [by left|right; by right].
Qed.

Lemma odict_values_length_set {V} (k : string) (v : V) (d : ODict.t V) :
  (length (ODict.set k v d) ≤ S (length d))%nat.
Proof.
  induction d as [|[k' v'] d IH]; cbn; [lia|].
  destruct (String.eqb k k'); cbn; lia.
Qed.

Lemma keyed_by_set {V} (key : V → string) (v : V) (d : ODict.t V) :
  keyed_by key d → keyed_by key (ODict.set (key v) v d).
Proof.
  intros [Hnodup Hkeys]. split.
  - rewrite odict_keys_set. destruct (ODict.mem (key v) d) eqn:Hmem; [done|].
    apply NoDup_app. split_and!; [done| |apply NoDup_singleton].
    intros k Hk ->%list_elem_of_singleton. by apply odict_mem_keys in Hmem.
  - clear Hnodup. induction Hkeys as [|[k' v'] d Hk Hd IH]; cbn.
    + by repeat constructor.
    + destruct (String.eqb_spec (key v) k') as [<-|Hne]; by constructor.
Qed.

Lemma keyed_by_add_unique (d : ODict.t Guild) (guilds : list Guild) :
  keyed_by unique_key d → keyed_by unique_key (add_unique d guilds).
Proof.
  revert d. induction guilds as [|guild guilds IH]; intros d Hd; [done|].
  apply IH. by apply keyed_by_set.
Qed.

Lemma keyed_by_keys {V} (key : V → string) (d : ODict.t V) :
  keyed_by key d → ODict.keys d = key <$> ODict.values d.
Proof.
  intros [_ Hkeys]. unfold ODict.keys, ODict.values.
  rewrite <- list_fmap_compose. apply Forall_fmap_ext.
  eapply Forall_impl; [exact Hkeys|]. by intros [k v].
Qed.

Lemma odict_get_values {V} (k : string) (v : V) (d : ODict.t V) :
  ODict.get k d = Some v → v ∈ ODict.values d.
Proof.
  induction d as [|[k' v'] d IH]; [done|]. cbn.
  destruct (String.eqb k k'); [intros [= ->]; left|intros Hget; right; by apply IH].
Qed.

Lemma add_unique_values (d : ODict.t Guild) (guilds : list Guild) (guild : Guild) :
  guild ∈ ODict.values (add_unique d guilds) →
  guild ∈ ODict.values d ∨ guild ∈ guilds.
Proof.
  revert d. induction guilds as [|g guilds IH]; intros d; [by left|].
  intros [Hd|Hin]%IH; [|right; by right].
  apply odict_values_set in Hd as [->|Hd]; [right; left|by left].
Qed.

Lemma add_unique_length (d : ODict.t Guild) (guilds : list Guild) :
  (length (add_unique d guilds) ≤ length d + length guilds)%nat.
Proof.
  revert d. induction guilds as [|g guilds IH]; intros d; cbn; [lia|].
  etrans; [apply IH|]. pose proof (odict_values_length_set (unique_key g) g d). lia.
Qed.

(** X18. The list [main] hands to the Language Filter has one record for every
    key of the records merged, no two records with the same key, and only
    records that were merged. *)
Theorem merged_keys_distinct (guilds : list Guild) :
  let all_unique_guilds := ODict.values (add_unique [] guilds) in
  NoDup (unique_key <$> all_unique_guilds) ∧
  (∀ guild, guild ∈ all_unique_guilds → guild ∈ guilds) ∧
  (∀ guild, guild ∈ guilds →
     ∃ kept, kept ∈ all_unique_guilds ∧ unique_key kept = unique_key guild) ∧
  (length all_unique_guilds ≤ length guilds)%nat.
Proof.
  intros all_unique_guilds.
  assert (Hkeyed : keyed_by unique_key (add_unique [] guilds)).
  { apply keyed_by_add_unique. split; constructor. }
  split_and!.
  - unfold all_unique_guilds. rewrite <- (keyed_by_keys _ _ Hkeyed). apply Hkeyed.
  - intros guild [Hnil|Hin]%add_unique_values; [by apply elem_of_nil in Hnil|done].
  - intros guild Hin.
    pose proof (get_add_unique (unique_key guild) [] guilds) as Hget.
    unfold last_with_key in Hget.
    destruct (last _) as [kept|] eqn:Hlast.
    + exists kept. split; [by eapply odict_get_values|].
      apply last_Some_elem_of, list_elem_of_In, filter_In in Hlast as [_ Hkey].
      by apply String.eqb_eq in Hkey.
    + apply last_None in Hlast.
      assert (Hf : guild ∈ List.filter
                     (λ g, String.eqb (unique_key g) (unique_key guild)) guilds).
      { apply list_elem_of_In, filter_In. split; [by apply list_elem_of_In|].
        apply String.eqb_refl. }
      rewrite Hlast in Hf. by apply elem_of_nil in Hf.
  - unfold all_unique_guilds, ODict.values. rewrite length_fmap.
    apply (add_unique_length [] guilds).
Qed.

Lemma merged_keys_distinct_witness :
  ODict.values (add_unique [] [Example.alpha; Example.beta; Example.alpha_old])
    = [Example.alpha_old; Example.beta] ∧
  ∃ kept, kept ∈ [Example.alpha_old; Example.beta] ∧
          unique_key kept = unique_key Example.alpha.
Proof.
  split; [reflexivity|].
  apply (proj1 (proj2 (proj2 (merged_keys_distinct
                                [Example.alpha; Example.beta; Example.alpha_old])))).
  left.
Defined.

(** ** More on the Language Filter *)

(** X19. A language field with nothing but white space behind its colon
    classifies as the empty string, not as absent, and is no match. *)
Theorem language_field_without_value
    (fetch_page : string → option string → option Soup) (guild : Guild)
    (soup : Soup) (label blank : string) :
  fetch_page (BASE_URL +:+ url guild) None = Some soup →
  find_div_language soup = Some (label +:+ ":" +:+ blank) →
  Py.contains ":" label = false →
  all_space blank →
  get_guild_language fetch_page (url guild) = Some EmptyString ∧
  is_finnish (get_guild_language fetch_page (url guild)) = false ∧
  language_matches fetch_page "Finnish" guild = false.
Proof.
  intros Hfetch Hfield Hlabel Hblank.
  assert (Hlang : get_guild_language fetch_page (url guild) = Some EmptyString).
  { unfold get_guild_language. rewrite Hfetch, Hfield.
    change (label +:+ ":" +:+ blank) with (label +:+ String ":" blank).
    rewrite (contains_sep_app ":" label blank), (split1_first ":" label blank Hlabel).
    cbn. by rewrite strip_all_space. }
  split; [done|]. split.
  - by rewrite Hlang.
  - unfold language_matches. by rewrite Hlang.
Qed.

Lemma language_field_without_value_witness :
  get_guild_language
    (λ _ _, Some (Example.detail "Primary Language: "))
    "/guild/eu/kazzak/Alpha" = Some EmptyString.
Proof.
  apply (language_field_without_value
           (λ _ _, Some (Example.detail "Primary Language: ")) Example.alpha
           (Example.detail "Primary Language: ") "Primary Language" " ").
  - reflexivity.
  - reflexivity.
  - reflexivity.
  - by apply blank_all_space.
Defined.

(** X20. At every point of the pass the list built so far begins the final
    result, and the final output file holds that list as soon as the list
    has one match; until then the file is as the pass found it. *)
Theorem filter_finnish_guilds_incremental
    (fetch_page : string → option string → option Soup)
    (checked rest : list Guild) (final_file : option (list FinalGuild)) :
  let so_far := filter_finnish_guilds fetch_page checked final_file in
  let at_end := filter_finnish_guilds fetch_page (checked ++ rest) final_file in
  at_end.1 = so_far.1 ++ (filter_finnish_guilds fetch_page rest so_far.2).1 ∧
  at_end = foldl (filter_step fetch_page) so_far rest ∧
  so_far.2 = match so_far.1 with [] => final_file | _ => Some so_far.1 end.
Proof.
  intros so_far at_end. unfold at_end, so_far, filter_finnish_guilds.
  rewrite foldl_app, !filter_loop. cbn [fst snd app].
  split_and!; [done|done|by destruct (List.filter _ checked)].
Qed.

(** ** The whole run *)

(** X21. When [main] ends, the final output file holds the list it reports, also
    when that list is empty and the Language Filter has written nothing; the
    list is the filter of the unique guilds the loop over the tiers has
    merged, and the two tier files are as that loop left them. *)
Theorem main_writes_final_file
    (fetch_page : string → option string → option Soup) (has_progress : Soup → bool)
    (fuel : nat) (files files' : Files) (finnish_guilds : list FinalGuild) :
  main fetch_page has_progress fuel files = Some (files', finnish_guilds) →
  final_guilds_file files' = Some finnish_guilds ∧
  ∃ m,
    tiers_loop fetch_page has_progress fuel (tier_progress_file files)
      (mkMain files (guilds_with_mythic_file files) []) tiers_in_order = Some m ∧
    tier_progress_file files' = tier_progress_file (disk m) ∧
    guilds_with_mythic_file files' = guilds_with_mythic_file (disk m) ∧
    finnish_guilds
      = drop_url <$> List.filter (language_matches fetch_page "Finnish")
                       (ODict.values (unique_guilds m)) ∧
    (length finnish_guilds ≤ length (unique_guilds m))%nat.
Proof.
  unfold main. fold tiers_in_order.
  destruct (tiers_loop _ _ _ _ _ _) as [m|]; [|done]. cbn [mbind option_bind].
  unfold filter_finnish_guilds. rewrite filter_loop. cbn [app].
  intros [= <- <-]. split; [done|]. exists m. split_and!; try done.
  rewrite length_fmap. etrans; [apply filter_length_le|].
  unfold ODict.values. by rewrite length_fmap.
Qed.

Lemma main_writes_final_file_witness :
  ∃ files',
    main Example.site has_mythic_progress 5 Example.no_files
      = Some (files', [mkFinal "Alpha" "Kazzak" "EU"]) ∧
    final_guilds_file files' = Some [mkFinal "Alpha" "Kazzak" "EU"].
Proof.
  destruct (main Example.site has_mythic_progress 5 Example.no_files)
    as [[files' out]|] eqn:Hrun; [|by vm_compute in Hrun].
  destruct (main_writes_final_file _ _ _ _ _ _ Hrun) as [Hfinal _].
  exists files'. vm_compute in Hrun. injection Hrun as <- <-.
  split; [reflexivity|exact Hfinal].
Defined.

(** ** More on the combine tool *)

Lemma odict_mem_app {V} (k : string) (d1 d2 : ODict.t V) :
  ODict.mem k (d1 ++ d2) = ODict.mem k d1 || ODict.mem k d2.
Proof.
  induction d1 as [|[k' v] d1 IH]; [done|]. cbn. rewrite IH.
  by destruct (String.eqb k k').
Qed.

Lemma odict_mem_elem {V} (k : string) (d : ODict.t V) :
  ODict.mem k d = true ↔ k ∈ ODict.keys d.
Proof.
  induction d as [|[k' v] d IH]; cbn.
  - split; [done|by intros ?%elem_of_nil].
  - rewrite orb_true_iff, String.eqb_eq, IH, elem_of_cons. done.
Qed.

(** The dictionary of the tool grows by one entry per record exactly when
    the keys of the records are new and pairwise different. *)
Lemma unique_from_all_new (d : ODict.t FinalGuild) (guilds : list FinalGuild) :
  NoDup (ODict.keys d ++ (Combine.key <$> guilds)) ↔
  NoDup (ODict.keys d) ∧
  foldl Combine.add_first d guilds = d ++ ((λ g, (Combine.key g, g)) <$> guilds).
Proof.
  revert d. induction guilds as [|g guilds IH]; intros d.
  - cbn. rewrite !app_nil_r. by intuition.
  - cbn [foldl fmap list_fmap]. unfold Combine.add_first at 2.
    destruct (ODict.mem (Combine.key g) d) eqn:Hmem.
    + split.
      * intros Hnodup. exfalso. apply NoDup_app in Hnodup as (_ & Hdisj & _).
        apply (Hdisj (Combine.key g)); [by apply odict_mem_elem|left].
      * intros [_ Heq]. exfalso.
        pose proof (unique_from_length d guilds) as Hlen.
        rewrite Heq, length_app in Hlen. cbn in Hlen. rewrite length_fmap in Hlen. lia.
    + rewrite (odict_set_absent _ _ _ Hmem).
      specialize (IH (d ++ [(Combine.key g, g)])).
      unfold ODict.keys in *. rewrite fmap_app, <- app_assoc in IH. cbn in IH.
      rewrite IH, <- app_assoc. cbn. split.
      * intros [Hnodup Heq]. split; [|done].
        by apply NoDup_app in Hnodup as (? & _).
      * intros [Hnodup Heq]. split; [|done].
        apply NoDup_app. split_and!; [done| |apply NoDup_singleton].
        intros k Hk ->%list_elem_of_singleton.
        apply odict_mem_elem in Hk. unfold ODict.keys in Hk. congruence.
Qed.

Lemma unique_of_distinct (guilds : list FinalGuild) :
  NoDup (Combine.key <$> guilds) ↔
  ODict.values (Combine.unique_of guilds) = guilds.
Proof.
  unfold Combine.unique_of. split.
  - intros Hnodup. apply (unique_from_all_new [] guilds) in Hnodup as [_ ->].
    unfold ODict.values. cbn [app]. rewrite <- list_fmap_compose.
    by rewrite list_fmap_id.
  - intros Hvalues.
    assert (Hkeyed : keyed (foldl Combine.add_first [] guilds))
      by apply keyed_unique_from, keyed_empty.
    pose proof (keyed_by_keys Combine.key _ Hkeyed) as Hkeys.
    rewrite Hvalues in Hkeys. rewrite <- Hkeys. apply Hkeyed.
Qed.

Lemma sort_by_name_sorted_id (lower : string → string) (l : list FinalGuild) :
  StronglySorted (name_le lower) l → Combine.sort_by_name lower l = l.
Proof.
  induction 1 as [|x l Hsorted IH Hx]; [done|].
  cbn. unfold Combine.sort_by_name in IH. rewrite IH.
  destruct l as [|y l]; [done|]. cbn.
  apply Forall_cons in Hx as [Hxy _]. unfold name_le, String.le in Hxy.
  unfold Combine.sort_key. by destruct (String.leb _ _).
Qed.

Lemma sort_by_name_stable_for (lower : string → string) (p : FinalGuild → bool)
    (l : list FinalGuild) :
  (∀ x y, p x = true → p y = true →
          Combine.sort_key lower x = Combine.sort_key lower y) →
  List.filter p (Combine.sort_by_name lower l) = List.filter p l.
Proof.
  intros Hsame. induction l as [|x l IH]; [done|].
  cbn [Combine.sort_by_name foldr]. rewrite insert_sorted_stable.
  - cbn [List.filter]. unfold Combine.sort_by_name in IH. by rewrite IH.
  - intros y. apply Hsame.
Qed.

Lemma unique_from_sublist (d : ODict.t FinalGuild) (guilds : list FinalGuild) :
  ∃ kept, ODict.values (foldl Combine.add_first d guilds) = ODict.values d ++ kept
          ∧ sublist kept guilds.
Proof.
  revert d. induction guilds as [|g guilds IH]; intros d.
  - exists []. cbn. by rewrite app_nil_r.
  - cbn [foldl]. destruct (IH (Combine.add_first d g)) as (kept & -> & Hsub).
    unfold Combine.add_first. destruct (ODict.mem _ d) eqn:Hmem.
    + exists kept. split; [done|]. by apply sublist_cons.
    + rewrite (odict_set_absent _ _ _ Hmem). exists (g :: kept).
      unfold ODict.values. rewrite fmap_app, <- app_assoc. split; [done|].
      by apply sublist_skip.
Qed.

Lemma unique_from_length_eq (d : ODict.t FinalGuild) (guilds : list FinalGuild) :
  NoDup (ODict.keys d) →
  (length (foldl Combine.add_first d guilds) = (length d + length guilds)%nat ↔
   NoDup (ODict.keys d ++ (Combine.key <$> guilds))).
Proof.
  revert d. induction guilds as [|g guilds IH]; intros d Hd.
  - cbn. rewrite app_nil_r. split; [done|lia].
  - cbn [foldl fmap list_fmap length]. unfold Combine.add_first at 2.
    destruct (ODict.mem (Combine.key g) d) eqn:Hmem.
    + split.
      * pose proof (unique_from_length d guilds). lia.
      * intros Hnodup. exfalso. apply NoDup_app in Hnodup as (_ & Hdisj & _).
        apply (Hdisj (Combine.key g)); [by apply odict_mem_elem|left].
    + rewrite (odict_set_absent _ _ _ Hmem).
      assert (Hd' : NoDup (ODict.keys (d ++ [(Combine.key g, g)]))).
      { unfold ODict.keys. rewrite fmap_app. apply NoDup_app.
        split_and!; [done| |apply NoDup_singleton].
        intros k Hk ->%list_elem_of_singleton.
        apply odict_mem_elem in Hk. cbn in Hk. congruence. }
      specialize (IH _ Hd'). rewrite length_app in IH. cbn [length] in IH.
      unfold ODict.keys in *. rewrite fmap_app, <- app_assoc in IH. cbn in IH.
      rewrite <- IH. lia.
Qed.

Lemma filter_sublist {A} (p : A → bool) (l : list A) : sublist (List.filter p l) l.
Proof.
  induction l as [|x l IH]; cbn; [constructor|].
  destruct (p x); by constructor.
Qed.

(** X22. The tool reports no duplicate exactly when the keys of the records of
    the two files are pairwise different, and then the combined file is the
    two files sorted. *)
Theorem no_duplicates_iff_keys_distinct (lower : string → string)
    (guilds guilds_mythic : list FinalGuild) :
  let result := Combine.combine_guild_files lower guilds guilds_mythic in
  (Combine.duplicates_removed result.2 = 0 ↔
   NoDup (Combine.key <$> guilds ++ guilds_mythic)) ∧
  (NoDup (Combine.key <$> guilds ++ guilds_mythic) →
   result.1 = Combine.sort_by_name lower (guilds ++ guilds_mythic)).
Proof.
  intros result. unfold result, Combine.combine_guild_files. cbn [fst snd Combine.duplicates_removed].
  set (input := guilds ++ guilds_mythic).
  split.
  - pose proof (unique_from_length_eq [] input ltac:(constructor)) as Hiff.
    cbn [length Nat.add ODict.keys fmap list_fmap app] in Hiff. rewrite <- Hiff.
    rewrite (Permutation_length (sort_by_name_perm lower _)).
    unfold ODict.values. rewrite length_fmap. unfold Combine.unique_of.
    assert (length input = (length guilds + length guilds_mythic)%nat)
      by (unfold input; apply length_app).
    lia.
  - intros Hnodup. by apply unique_of_distinct in Hnodup as ->.
Qed.

Lemma no_duplicates_iff_keys_distinct_witness :
  Combine.duplicates_removed
    (Combine.combine_guild_files Py.lower [mkFinal "beta" "Tarren Mill" "EU"]
       [mkFinal "Alpha" "Kazzak" "eu"]).2 = 0 ∧
  (Combine.combine_guild_files Py.lower [mkFinal "beta" "Tarren Mill" "EU"]
     [mkFinal "Alpha" "Kazzak" "eu"]).1
  = [mkFinal "Alpha" "Kazzak" "eu"; mkFinal "beta" "Tarren Mill" "EU"].
Proof.
  destruct (no_duplicates_iff_keys_distinct Py.lower
              [mkFinal "beta" "Tarren Mill" "EU"]
              [mkFinal "Alpha" "Kazzak" "eu"]) as [Hiff Hsorted].
  assert (Hnodup : NoDup (Combine.key <$> [mkFinal "beta" "Tarren Mill" "EU"]
                                           ++ [mkFinal "Alpha" "Kazzak" "eu"]))
    by compute_done.
  split; [by apply Hiff|]. rewrite (Hsorted Hnodup). reflexivity.
Defined.

(** X23. Running the tool on a combined file and an empty one gives the combined
    file back, with no duplicate reported. *)
Theorem combine_is_idempotent (lower : string → string)
    (guilds guilds_mythic : list FinalGuild) :
  let combined := (Combine.combine_guild_files lower guilds guilds_mythic).1 in
  Combine.combine_guild_files lower combined []
  = (combined, Combine.mkReport (length combined) 0 (length combined) 0).
Proof.
  intros combined. unfold Combine.combine_guild_files at 1. rewrite app_nil_r.
  assert (Hkeys : NoDup (Combine.key <$> combined)).
  { unfold combined, Combine.combine_guild_files. cbn [fst].
    rewrite sort_by_name_perm.
    assert (Hkeyed : keyed (Combine.unique_of (guilds ++ guilds_mythic)))
      by apply keyed_unique_from, keyed_empty.
    rewrite <- (keyed_by_keys Combine.key _ Hkeyed). apply Hkeyed. }
  apply unique_of_distinct in Hkeys as ->.
  rewrite sort_by_name_sorted_id by apply sort_by_name_sorted.
  do 2 f_equal. cbn. lia.
Qed.

(** X24. Records whose names differ by case only stand in the combined file in
    the order in which the two files, the first in front, have them. *)
Theorem combine_keeps_order_of_equal_names (lower : string → string)
    (guilds guilds_mythic : list FinalGuild) (lower_name : string) :
  let same_name guild := String.eqb (Combine.sort_key lower guild) lower_name in
  sublist
    (List.filter same_name (Combine.combine_guild_files lower guilds guilds_mythic).1)
    (guilds ++ guilds_mythic).
Proof.
  intros same_name. unfold Combine.combine_guild_files. cbn [fst].
  rewrite sort_by_name_stable_for.
  - etrans; [apply filter_sublist|].
    destruct (unique_from_sublist [] (guilds ++ guilds_mythic)) as (kept & Hkept & Hsub).
    unfold Combine.unique_of. by rewrite Hkept.
  - intros x y Hx%String.eqb_eq Hy%String.eqb_eq. congruence.
Qed.
